(** * Search clauses and phrases of the study query, and the
      mutation-assessor column formatter

    A shallow embedding of
    - [src/shared/components/query/SearchClause.tsx]: the phrases
      ([DefaultPhrase], [ListPhrase]) and the clauses ([NotSearchClause],
      [AndSearchClause]) of the study search box;
    - [MutationAssessorColumnFormatter]: the lookup of the display label,
      the style class and the sort priority of a functional impact score.

    Conventions of the embedding.
    - A JavaScript string is a [string]; [toLowerCase] acts on the letters
      [A-Z] (the ASCII range).
    - A study read by a field name ([study[fieldName]]) is a [gmap] from the
      names to the values, which are strings.
    - The score map is a plain object: a read [MA_SCORE_MAP[key]] finds its
      own properties and those inherited from [Object.prototype].
    - A reference that may be [null] or [undefined] is a [JsRef].
    - A method that can fail with a [TypeError] returns a [Completion]. *)

From Stdlib Require Import ZArith Lia Ascii.
From stdpp Require Import base option list strings gmap.

(** ** JavaScript values and primitives *)

(** A reference to an object, or one of the two empty values. *)
Inductive JsRef (A : Type) : Type :=
  | JsNull
  | JsUndefined
  | JsObj (a : A).
Arguments JsNull {A}.
Arguments JsUndefined {A}.
Arguments JsObj {A} a.

(** Truthiness of a reference: an object is truthy, [null] and [undefined]
    are not. *)
Definition truthy_ref {A} (r : JsRef A) : bool :=
  match r with
  | JsObj _ => true
  | _ => false
  end.

(** Truthiness of a string: every string but the empty one. *)
Definition truthy_string (s : string) : bool :=
  match s with
  | EmptyString => false
  | String _ _ => true
  end.

(** The outcome of a call: a value, or a [TypeError] thrown by a property
    read on [null] or [undefined]. *)
Inductive Completion (A : Type) : Type :=
  | Normal (a : A)
  | ThrowTypeError.
Arguments Normal {A} a.
Arguments ThrowTypeError {A}.

#[global] Instance Completion_ret : MRet Completion := fun A a => Normal a.
#[global] Instance Completion_bind : MBind Completion := fun A B k c =>
  match c with
  | Normal a => k a
  | ThrowTypeError => ThrowTypeError
  end.

Module Js.

(** [c.toLowerCase()] for one character. *)
Definition lower_ascii (c : ascii) : ascii :=
  let n := Ascii.N_of_ascii c in
  if ((65 <=? n) && (n <=? 90))%N then Ascii.ascii_of_N (n + 32) else c.

(** [s.toLowerCase()] *)
Fixpoint toLowerCase (s : string) : string :=
  match s with
  | EmptyString => EmptyString
  | String c t => String (lower_ascii c) (toLowerCase t)
  end.

(** [s.indexOf(needle)]: the position of the first occurrence of [needle]
    in [s], or [-1]. *)
Fixpoint indexOf (s needle : string) : Z :=
  if String.prefix needle s then 0%Z
  else
    match s with
    | EmptyString => (-1)%Z
    | String _ t =>
        let r := indexOf t needle in
        if (r =? -1)%Z then (-1)%Z else (r + 1)%Z
    end.

(** [s.split(sep)] for a separator of one character. *)
Fixpoint split (sep : ascii) (s : string) : list string :=
  match s with
  | EmptyString => [EmptyString]
  | String c t =>
      if Ascii.eqb c sep then EmptyString :: split sep t
      else
        match split sep t with
        | [] => [String c EmptyString]
        | seg :: segs => String c seg :: segs
        end
  end.

(** The string of one character. *)
Definition str (c : ascii) : string := String c EmptyString.

(** [l.join(sep)] on an array of strings. *)
Definition join (sep : ascii) (l : list string) : string :=
  String.concat (str sep) l.

(** [_.isEqual] on values with a decidable structural equality; on two
    arrays of strings it compares them element-wise, in order. *)
Definition isEqual {A} `{EqDecision A} (x y : A) : bool :=
  bool_decide (x = y).

(** Truthiness of a property that holds an array, or is [undefined] when
    the object has no such property. *)
Definition truthy_prop {A} (v : option (list A)) : bool :=
  match v with
  | Some _ => true
  | None => false
  end.

(** [s.substring(n)]: [s] without its first [n] characters. *)
Fixpoint skip (n : nat) (s : string) : string :=
  match n, s with
  | O, _ => s
  | S n', String _ t => skip n' t
  | S _, EmptyString => EmptyString
  end.

(** [s.replace(pattern, replacement)] for a pattern that is a string and a
    replacement without [$]: the first occurrence of the pattern, if any,
    is replaced. *)
Fixpoint replace (s pattern replacement : string) : string :=
  if String.prefix pattern s
  then replacement +:+ skip (String.length pattern) s
  else
    match s with
    | EmptyString => EmptyString
    | String c t => String c (replace t pattern replacement)
    end.

End Js.

(** ** Constants of SearchClause.tsx *)

Definition FILTER_SEPARATOR : ascii := ":"%char.
Definition FILTER_VALUE_SEPARATOR : ascii := ","%char.
Definition NOT_PREFIX : string := "-".

(** [CancerTreeNodeFields]: the name of an attribute of a study. *)
Definition FieldName : Type := string.

(** [CancerTreeNode]: the attributes of a study, read by name. *)
Abbreviation CancerTreeNode := (gmap string string).

(** [matchPhrase(phrase, fullText)] *)
Definition matchPhrase (phrase fullText : string) : bool :=
  (-1 <? Js.indexOf (Js.toLowerCase fullText) (Js.toLowerCase phrase))%Z.

(** ** Phrases *)

Module DefaultPhrase.

Record t : Type := new
  { _phrase : string;
    _textRepresentation : string;
    _fields : list FieldName }.

Definition phrase (this : t) : string := _phrase this.
Definition fields (this : t) : list FieldName := _fields this.
Definition toString (this : t) : string := _textRepresentation this.

(** The body of the loop over [this.fields]. *)
Definition match_step (this : t) (study : CancerTreeNode)
    (anyFieldMatch : bool) (fieldName : FieldName) : bool :=
  let fieldMatch :=
    match study !! fieldName with
    | Some fieldValue =>
        if truthy_string fieldValue then matchPhrase (phrase this) fieldValue
        else false
    | None => false
    end in
  anyFieldMatch || fieldMatch.

Definition match_ (this : t) (study : CancerTreeNode) : bool :=
  fold_left (match_step this study) (fields this) false.

End DefaultPhrase.

Module ListPhrase.

Record t : Type := mk
  { _textRepresentation : string;
    _fields : list FieldName;
    _phraseList : list string;
    _prefix : string }.

(** The constructor. [split] never returns an empty array, so the read of
    its first element always finds one. *)
Definition new (phrase textRepresentation : string) (fields : list FieldName) : t :=
  {| _fields := fields;
     _phraseList := Js.split FILTER_VALUE_SEPARATOR phrase;
     _textRepresentation := textRepresentation;
     _prefix := hd EmptyString (Js.split FILTER_SEPARATOR textRepresentation) |}.

Definition phrase (this : t) : string :=
  Js.join FILTER_VALUE_SEPARATOR (_phraseList this).
Definition fields (this : t) : list FieldName := _fields this.
Definition prefix (this : t) : string := _prefix this.
Definition phraseList (this : t) : list string := _phraseList this.
Definition toString (this : t) : string := _textRepresentation this.

(** The inner loop over [this._phraseList]: every iteration assigns the
    flag, and the loop variable is not read. *)
Definition entry_step (this : t) (fieldValue : string)
    (fieldMatch : bool) (phrase_entry : string) : bool :=
  matchPhrase (phrase this) fieldValue.

Definition match_step (this : t) (study : CancerTreeNode)
    (anyFieldMatch : bool) (fieldName : FieldName) : bool :=
  let fieldMatch :=
    match study !! fieldName with
    | Some fieldValue =>
        if truthy_string fieldValue
        then fold_left (entry_step this fieldValue) (_phraseList this) false
        else false
    | None => false
    end in
  anyFieldMatch || fieldMatch.

Definition match_ (this : t) (study : CancerTreeNode) : bool :=
  fold_left (match_step this study) (fields this) false.

End ListPhrase.

(** The two classes that implement the interface [Phrase]. *)
Inductive Phrase : Type :=
  | Default (p : DefaultPhrase.t)
  | List (p : ListPhrase.t).

(** Property reads on a phrase of either class. A property that holds an
    array reads as [None] where the object does not have it. *)
Definition Phrase_phrase (o : Phrase) : string :=
  match o with
  | Default p => DefaultPhrase.phrase p
  | List p => ListPhrase.phrase p
  end.

Definition Phrase_fields (o : Phrase) : option (list FieldName) :=
  match o with
  | Default p => Some (DefaultPhrase.fields p)
  | List p => Some (ListPhrase.fields p)
  end.

(** [o._phraseList]: [undefined] on a [DefaultPhrase]. *)
Definition Phrase_phraseList (o : Phrase) : option (list string) :=
  match o with
  | Default _ => None
  | List p => Some (ListPhrase._phraseList p)
  end.

Definition Phrase_toString (o : Phrase) : string :=
  match o with
  | Default p => DefaultPhrase.toString p
  | List p => ListPhrase.toString p
  end.

Definition Phrase_match (o : Phrase) (study : CancerTreeNode) : bool :=
  match o with
  | Default p => DefaultPhrase.match_ p study
  | List p => ListPhrase.match_ p study
  end.

(** [DefaultPhrase.equals] *)
Definition DefaultPhrase_equals (this : DefaultPhrase.t) (other : JsRef Phrase) : bool :=
  match other with
  | JsNull | JsUndefined => false
  | JsObj o =>
      if negb (truthy_string (Phrase_phrase o))
         || negb (Js.truthy_prop (Phrase_fields o))
      then false
      else if negb (String.eqb (DefaultPhrase.phrase this) (Phrase_phrase o)) then false
      else Js.isEqual (Some (DefaultPhrase.fields this)) (Phrase_fields o)
  end.

(** [ListPhrase.equals] *)
Definition ListPhrase_equals (this : ListPhrase.t) (other : JsRef Phrase) : bool :=
  match other with
  | JsNull | JsUndefined => false
  | JsObj o =>
      if negb (Js.truthy_prop (Phrase_phraseList o))
         || negb (Js.truthy_prop (Phrase_fields o))
      then false
      else if negb (Js.isEqual (Some (ListPhrase._phraseList this)) (Phrase_phraseList o))
      then false
      else Js.isEqual (Some (ListPhrase.fields this)) (Phrase_fields o)
  end.

Definition Phrase_equals (this : Phrase) (other : JsRef Phrase) : bool :=
  match this with
  | Default p => DefaultPhrase_equals p other
  | List p => ListPhrase_equals p other
  end.

(** ** Clauses *)

(** The two classes that implement [ISearchClause]. The phrase of a
    not-clause is typed [Phrase]; its methods also handle an empty
    reference. *)
Inductive ISearchClause : Type :=
  | NotSearchClause (phrase : JsRef Phrase)
  | AndSearchClause (phrases : list Phrase).

(** The argument of [contains]: [Phrase | null], or a predicate. *)
Inductive ContainsArg : Type :=
  | MatchRef (r : JsRef Phrase)
  | MatchFn (predicate : JsRef Phrase -> bool).

Definition isAnd (c : ISearchClause) : bool :=
  match c with
  | NotSearchClause _ => false
  | AndSearchClause _ => true
  end.

Definition isNot (c : ISearchClause) : bool :=
  match c with
  | NotSearchClause _ => true
  | AndSearchClause _ => false
  end.

Definition getPhrases (c : ISearchClause) : list (JsRef Phrase) :=
  match c with
  | NotSearchClause phrase => [phrase]
  | AndSearchClause phrases => map JsObj phrases
  end.

Definition NotSearchClause_toString (phrase : JsRef Phrase) : string :=
  match phrase with
  | JsObj p => NOT_PREFIX +:+ " " +:+ Phrase_toString p
  | _ => ""
  end.

Definition AndSearchClause_toString (phrases : list Phrase) : string :=
  if (0 <? length phrases)%nat
  then Js.join " "%char (map Phrase_toString phrases)
  else "".

Definition ISearchClause_toString (c : ISearchClause) : string :=
  match c with
  | NotSearchClause phrase => NotSearchClause_toString phrase
  | AndSearchClause phrases => AndSearchClause_toString phrases
  end.

(** [NotSearchClause.contains]: the call [this.phrase.equals(match)] throws
    when the wrapped reference is empty. *)
Definition NotSearchClause_contains (phrase : JsRef Phrase) (m : ContainsArg)
    : Completion bool :=
  match m with
  | MatchRef JsNull | MatchRef JsUndefined => mret (negb (truthy_ref phrase))
  | MatchFn predicate => mret (predicate phrase)
  | MatchRef (JsObj q) =>
      match phrase with
      | JsObj p => mret (Phrase_equals p (JsObj q))
      | _ => ThrowTypeError
      end
  end.

(** [for (const phrase of phrases) { if (test(phrase)) return true; } return false;] *)
Fixpoint for_return_true (test : Phrase -> bool) (phrases : list Phrase) : bool :=
  match phrases with
  | [] => false
  | phrase :: rest => if test phrase then true else for_return_true test rest
  end.

Definition AndSearchClause_contains (phrases : list Phrase) (m : ContainsArg) : bool :=
  match m with
  | MatchRef JsNull | MatchRef JsUndefined => negb (0 <? length phrases)%nat
  | MatchFn predicate => for_return_true (fun phrase => predicate (JsObj phrase)) phrases
  | MatchRef (JsObj q) => for_return_true (fun phrase => Phrase_equals phrase (JsObj q)) phrases
  end.

Definition ISearchClause_contains (c : ISearchClause) (m : ContainsArg) : Completion bool :=
  match c with
  | NotSearchClause phrase => NotSearchClause_contains phrase m
  | AndSearchClause phrases => mret (AndSearchClause_contains phrases m)
  end.

(** [for (const x of l) { s = body(s, x); }], where the body may throw. *)
Fixpoint for_of {S A} (body : S -> A -> Completion S) (l : list A) (s : S) : Completion S :=
  match l with
  | [] => mret s
  | x :: rest => s' ← body s x; for_of body rest s'
  end.

(** [containsAll = containsAll && clause.contains(itemPhrase)]: the call is
    made only while the flag is still true. *)
Definition containsAll_step (clause : ISearchClause) (containsAll : bool)
    (itemPhrase : Phrase) : Completion bool :=
  if containsAll then ISearchClause_contains clause (MatchRef (JsObj itemPhrase))
  else mret false.

Definition NotSearchClause_equals (phrase : JsRef Phrase) (other : ISearchClause)
    : Completion bool :=
  if isAnd other then mret false
  else ISearchClause_contains other (MatchRef phrase).

(** The read of [other.phrases] after the cast to [AndSearchClause]: the
    array of an and-clause; a not-clause has no such property. *)
Definition ISearchClause_phrases (other : ISearchClause) : option (list Phrase) :=
  match other with
  | NotSearchClause _ => None
  | AndSearchClause phrases => Some phrases
  end.

(** [AndSearchClause.equals]. Past the guard [other] is an and-clause, and
    [itemPhrases] is its array of phrases; a loop over [undefined] would
    throw. *)
Definition AndSearchClause_equals (phrases : list Phrase) (other : ISearchClause)
    : Completion bool :=
  if isNot other then mret false
  else
    let itemPhrases := ISearchClause_phrases other in
    containsAll ← for_of (containsAll_step other) phrases true;
    match itemPhrases with
    | Some items => for_of (containsAll_step (AndSearchClause phrases)) items containsAll
    | None => ThrowTypeError
    end.

Definition ISearchClause_equals (c other : ISearchClause) : Completion bool :=
  match c with
  | NotSearchClause phrase => NotSearchClause_equals phrase other
  | AndSearchClause phrases => AndSearchClause_equals phrases other
  end.

(** ** MutationAssessorColumnFormatter *)

Record IMutationAssessorFormat : Type :=
  { label : string;
    className : string;
    priority : Z }.

(** Mapping between the functional impact score values and view values. *)
Definition MA_SCORE_MAP : gmap string IMutationAssessorFormat :=
  list_to_map
    [ ("h", {| label := "High"; className := "oma-high"; priority := 4 |});
      ("m", {| label := "Medium"; className := "oma-medium"; priority := 3 |});
      ("l", {| label := "Low"; className := "oma-low"; priority := 2 |});
      ("n", {| label := "Neutral"; className := "oma-neutral"; priority := 1 |});
      ("na", {| label := "NA"; className := "oma-na"; priority := 0 |}) ].

(** The names of the properties that a plain object inherits from
    [Object.prototype]. Their values are functions, or the prototype
    itself for [__proto__]: truthy, and without a property [label],
    [className] or [priority]. *)
Definition Object_prototype_keys : list string :=
  [ "constructor"; "__proto__"; "hasOwnProperty"; "isPrototypeOf";
    "propertyIsEnumerable"; "toLocaleString"; "toString"; "valueOf";
    "__defineGetter__"; "__defineSetter__"; "__lookupGetter__";
    "__lookupSetter__" ].

(** The value of a read [MA_SCORE_MAP[key]]: an entry of the map, a value
    inherited from the prototype, or [undefined]. *)
Inductive MapRead : Type :=
  | OwnEntry (entry : IMutationAssessorFormat)
  | Inherited
  | Missing.

Definition MA_SCORE_MAP_read (key : string) : MapRead :=
  match MA_SCORE_MAP !! key with
  | Some entry => OwnEntry entry
  | None =>
      if bool_decide (key ∈ Object_prototype_keys) then Inherited else Missing
  end.

Section Formatter.

(** The type of the numeric score, which the functions below carry and
    never inspect. *)
Context {Number : Type}.

(** The fields of a [Mutation] that the formatter reads; each may be
    missing. *)
Record Mutation : Type :=
  { functionalImpactScore : option string;
    fisValue : option Number;
    linkPdb : option string;
    linkMsa : option string;
    linkXvar : option string }.

(** The object that [getData] returns; [{}] has no property. *)
Record MaData : Type :=
  { impact : option string;
    score : option Number;
    pdb : option string;
    msa : option string;
    xVar : option string }.

Definition emptyMaData : MaData :=
  {| impact := None; score := None; pdb := None; msa := None; xVar := None |}.

(** [IColumnFormatterData<MutationTableRowData>]; the row data is an
    array of mutations. *)
Record IColumnFormatterData : Type :=
  { name : string;
    columnData : option MaData;
    rowData : option (list Mutation) }.

Definition getData (data : IColumnFormatterData) : MaData :=
  match columnData data with
  | Some cd => cd
  | None =>
      match rowData data with
      | Some mutations =>
          match mutations with
          | m0 :: _ =>
              {| impact := functionalImpactScore m0;
                 score := fisValue m0;
                 pdb := linkPdb m0;
                 msa := linkMsa m0;
                 xVar := linkXvar m0 |}
          | [] => emptyMaData
          end
      | None => emptyMaData
      end
  end.

(** [maData && maData.impact]: the impact, when it is a non-empty string. *)
Definition truthy_impact (maData : MaData) : option string :=
  match impact maData with
  | Some s => if truthy_string s then Some s else None
  | None => None
  end.

Definition getMapEntry (data : IColumnFormatterData) : MapRead :=
  match truthy_impact (getData data) with
  | Some s => MA_SCORE_MAP_read (Js.toLowerCase s)
  | None => Missing
  end.

Definition getTextValue (data : IColumnFormatterData) : string :=
  match truthy_impact (getData data) with
  | Some s => s
  | None => ""
  end.

(** The result is [entry.label] for a truthy [entry]: [None] stands for
    [undefined], the value of the read on an inherited value. *)
Definition getDisplayValue (data : IColumnFormatterData) : option string :=
  match getMapEntry data with
  | OwnEntry entry => Some (label entry)
  | Inherited => None
  | Missing => Some (getTextValue data)
  end.

Definition filterValue (data : IColumnFormatterData) : option string :=
  getDisplayValue data.

Definition getScoreClassName (data : IColumnFormatterData) : option string :=
  match getMapEntry data with
  | OwnEntry value => Some (className value)
  | Inherited => None
  | Missing => Some ""
  end.

Definition getMaClassName (data : IColumnFormatterData) : string :=
  match getMapEntry data with
  | OwnEntry _ | Inherited => "oma-link"
  | Missing => ""
  end.

(** [aPriority] of [sortFunction]: [aFormat.priority] for a truthy
    [aFormat], which is [undefined] ([None]) on an inherited value, or [-1]. *)
Definition sortPriority (data : IColumnFormatterData) : option Z :=
  match getMapEntry data with
  | OwnEntry aFormat => Some (priority aFormat)
  | Inherited => None
  | Missing => Some (-1)%Z
  end.

End Formatter.

Arguments Mutation : clear implicits.
Arguments MaData : clear implicits.
Arguments IColumnFormatterData : clear implicits.

(** [maLink(link)]: the address behind a legacy mutation-assessor link, or
    [null] for an invalid one. The argument is a property of the data
    object and may be missing. *)
Definition maLink (link : option string) : option string :=
  match link with
  | Some l =>
      if truthy_string l
         && (0 <? String.length l)%nat
         && negb (String.eqb (Js.toLowerCase l) "na")
         && (Js.indexOf (Js.toLowerCase l) "not available" =? -1)%Z
      then
        let url := Js.replace l "getma.org" "mutationassessor.org/r2" in
        if negb (Js.indexOf url "http://" =? 0)%Z
        then Some ("http://" +:+ url)
        else Some url
      else None
  | None => None
  end.

(** The guard of [renderFunction] under which the cell gets a tooltip:
    [text.length > 0 && text !== NA], with [NA] the label of the entry
    [na] of the score map, read first. The read of [length] throws when
    [text] is [undefined]. *)
Definition renderFunction_hasTooltip {Number : Type}
    (data : IColumnFormatterData Number) : Completion bool :=
  NA ← match MA_SCORE_MAP_read "na" with
       | OwnEntry entry => mret (Some (label entry))
       | Inherited => mret None
       | Missing => ThrowTypeError
       end;
  match getDisplayValue data with
  | Some text =>
      mret ((0 <? String.length text)%nat && negb (bool_decide (Some text = NA)))
  | None => ThrowTypeError
  end.

(** ** Closed forms of the two match loops *)

(** The test of one field by a phrase string: the field has a value on the
    study, the value is truthy, and it contains the phrase string when both
    are put in lower case. *)
Definition field_matches (phrase : string) (study : CancerTreeNode)
    (fieldName : FieldName) : bool :=
  match study !! fieldName with
  | Some fieldValue => truthy_string fieldValue && matchPhrase phrase fieldValue
  | None => false
  end.

(** The flag of one field after the inner loop of the list match: the value
    assigned by the last iteration, one iteration per entry, each testing
    the rejoined phrase string. *)
Definition list_field_flag (lp : ListPhrase.t) (study : CancerTreeNode)
    (fieldName : FieldName) : bool :=
  match study !! fieldName with
  | Some fieldValue =>
      truthy_string fieldValue
      && List.last (map (fun _ : string => matchPhrase (ListPhrase.phrase lp) fieldValue)
                        (ListPhrase.phraseList lp)) false
  | None => false
  end.

(** ** The reading of the list match in the specification *)

(** The list match as the specification words it: for a field with a
    value, every entry of the list is tested on its own against the value,
    and the result of the last entry stands. To be compared with
    [ListPhrase.match_]. *)
Definition spec_last_entry_match (this : ListPhrase.t) (study : CancerTreeNode) : bool :=
  existsb
    (fun fieldName =>
       match study !! fieldName with
       | Some fieldValue =>
           truthy_string fieldValue
           && List.last (map (fun entry => matchPhrase entry fieldValue)
                             (ListPhrase.phraseList this)) false
       | None => false
       end)
    (ListPhrase.fields this).

(** * Properties *)

(** ** Strings *)

Section StringFacts.

Implicit Types s t needle : string.

Lemma append_cons c s t : String c s +:+ t = String c (s +:+ t).
Proof. reflexivity. Qed.

Lemma prefix_app needle s :
  String.prefix needle s = true <-> exists post, s = needle +:+ post.
Proof.
  revert s. induction needle as [|c needle IH]; intros s; simpl.
  - destruct s; split; eauto.
  - destruct s as [|d s]; simpl.
    + split; [discriminate | intros [post H]; rewrite append_cons in H; discriminate].
    + destruct (ascii_dec c d) as [->|Hne].
      * rewrite IH. split; intros [post H]; exists post;
          rewrite append_cons in *; congruence.
      * split; [discriminate | intros [post H]; rewrite append_cons in H; congruence].
Qed.

Lemma indexOf_nil needle :
  Js.indexOf "" needle = if String.prefix needle "" then 0%Z else (-1)%Z.
Proof. reflexivity. Qed.

Lemma indexOf_cons c s needle :
  Js.indexOf (String c s) needle =
    if String.prefix needle (String c s) then 0%Z
    else if (Js.indexOf s needle =? -1)%Z then (-1)%Z
         else (Js.indexOf s needle + 1)%Z.
Proof. reflexivity. Qed.

Lemma indexOf_lower_bound s needle : (-1 <= Js.indexOf s needle)%Z.
Proof.
  induction s as [|c s IH]; [rewrite indexOf_nil | rewrite indexOf_cons].
  - destruct (String.prefix needle ""); lia.
  - destruct (String.prefix needle (String c s)); [lia|].
    destruct (Z.eqb_spec (Js.indexOf s needle) (-1)); lia.
Qed.

(** [indexOf] finds an occurrence exactly when there is one. *)
Lemma indexOf_found s needle :
  (-1 < Js.indexOf s needle)%Z <-> exists pre post, s = pre +:+ needle +:+ post.
Proof.
  induction s as [|c s IH]; [rewrite indexOf_nil | rewrite indexOf_cons].
  - destruct (String.prefix needle "") eqn:Hp.
    + split; [intros _|lia].
      apply prefix_app in Hp as [post ->]. by exists "", post.
    + split; [lia|]. intros (pre & post & H).
      destruct pre; [|rewrite append_cons in H; discriminate].
      assert (String.prefix needle "" = true) by (apply prefix_app; eauto).
      congruence.
  - destruct (String.prefix needle (String c s)) eqn:Hp.
    + split; [intros _|lia].
      apply prefix_app in Hp as [post ->]. by exists "", post.
    + pose proof (indexOf_lower_bound s needle) as Hlb.
      destruct (Z.eqb_spec (Js.indexOf s needle) (-1)) as [Heq|Hne].
      * split; [lia|]. intros (pre & post & H).
        destruct pre as [|d pre]; [|rewrite append_cons in H].
        -- assert (String.prefix needle (String c s) = true)
             by (apply prefix_app; eauto).
           congruence.
        -- injection H as -> ->.
           assert (-1 < Js.indexOf (pre +:+ needle +:+ post) needle)%Z
             by (apply IH; eauto).
           lia.
      * split; [|lia]. intros _.
        destruct IH as [IH _]. destruct IH as (pre & post & ->); [lia|].
        by exists (String c pre), post.
Qed.

Lemma split_not_nil sep s : Js.split sep s <> [].
Proof.
  destruct s as [|c s]; simpl; [done|].
  destruct (Ascii.eqb c sep); [done|].
  by destruct (Js.split sep s).
Qed.

Lemma concat_cons_cons sep x y l :
  String.concat sep (x :: y :: l) = x +:+ sep +:+ String.concat sep (y :: l).
Proof. reflexivity. Qed.

(** Rejoining the segments of a split gives the string back, whatever
    the string. *)
Lemma join_split sep s : Js.join sep (Js.split sep s) = s.
Proof.
  unfold Js.join. induction s as [|c s IH]; simpl; [done|].
  destruct (Ascii.eqb_spec c sep) as [->|Hne].
  - pose proof (split_not_nil sep s) as Hnil.
    destruct (Js.split sep s) as [|seg segs]; [done|].
    rewrite concat_cons_cons, IH. reflexivity.
  - pose proof (split_not_nil sep s) as Hnil.
    destruct (Js.split sep s) as [|seg segs]; [done|].
    destruct segs as [|seg' segs].
    + simpl in *. by rewrite IH.
    + rewrite concat_cons_cons in *. by rewrite append_cons, IH.
Qed.

Lemma indexOf_char_cons sep c s :
  Js.indexOf (String c s) (Js.str sep) = (-1)%Z ->
  c <> sep /\ Js.indexOf s (Js.str sep) = (-1)%Z.
Proof.
  pose proof (indexOf_lower_bound s (Js.str sep)) as Hlb.
  simpl. destruct (ascii_dec sep c) as [->|Hne].
  - destruct s; discriminate.
  - destruct (Z.eqb_spec (Js.indexOf s (Js.str sep)) (-1)); [|lia].
    intros _. split; congruence.
Qed.

(** No segment of a split holds the separator. *)
Lemma split_segments sep s :
  Forall (fun seg => Js.indexOf seg (Js.str sep) = (-1)%Z) (Js.split sep s).
Proof.
  induction s as [|c s IH]; simpl.
  - by constructor.
  - destruct (Ascii.eqb_spec c sep) as [->|Hne].
    + constructor; [reflexivity | done].
    + destruct (Js.split sep s) as [|seg segs].
      * constructor; [|done]. simpl.
        destruct (ascii_dec sep c); [congruence | reflexivity].
      * inversion IH as [|? ? Hseg Hsegs]; subst.
        constructor; [|done]. simpl.
        destruct (ascii_dec sep c); [congruence|].
        by rewrite Hseg.
Qed.

(** A string without the separator is its own single segment. *)
Lemma split_absent sep s :
  Js.indexOf s (Js.str sep) = (-1)%Z -> Js.split sep s = [s].
Proof.
  induction s as [|c s IH]; [done|].
  intros [Hne Hs]%indexOf_char_cons. simpl.
  destruct (Ascii.eqb_spec c sep); [done|].
  by rewrite (IH Hs).
Qed.

End StringFacts.

(** ** Loops *)

Section LoopFacts.

Lemma fold_left_pointwise {A S} (f g : S -> A -> S) (l : list A) (s : S) :
  (forall s x, f s x = g s x) -> fold_left f l s = fold_left g l s.
Proof.
  intros Hfg. revert s. induction l as [|x l IH]; intros s; simpl; [done|].
  by rewrite Hfg, IH.
Qed.

Lemma fold_left_orb {A} (f : A -> bool) (l : list A) (acc : bool) :
  fold_left (fun b x => b || f x) l acc = acc || existsb f l.
Proof.
  revert acc. induction l as [|x l IH]; intros acc; simpl.
  - by rewrite orb_false_r.
  - by rewrite IH, orb_assoc.
Qed.

Lemma last_cons_default {B} (y : B) (l : list B) (d d' : B) :
  List.last (y :: l) d = List.last (y :: l) d'.
Proof.
  revert y. induction l as [|z l IH]; intros y; [done|].
  change (List.last (z :: l) d = List.last (z :: l) d'). apply IH.
Qed.

(** A loop that assigns on every iteration leaves the value of its last
    iteration, or the initial value when it did not iterate. *)
Lemma fold_left_assign {A B} (f : A -> B) (l : list A) (init : B) :
  fold_left (fun _ x => f x) l init = List.last (map f l) init.
Proof.
  revert init. induction l as [|x l IH]; intros init; [done|].
  simpl fold_left. rewrite IH. destruct l as [|a l]; [done|].
  change (List.last (map f (a :: l)) (f x) = List.last (map f (a :: l)) init).
  apply last_cons_default.
Qed.

Lemma last_map_const {A B} (b : B) (l : list A) (init : B) :
  l <> [] -> List.last (map (fun _ => b) l) init = b.
Proof.
  intros Hl. induction l as [|x l IH]; [done|].
  destruct l as [|y l]; [done|]. by apply IH.
Qed.

Lemma for_return_true_existsb test phrases :
  for_return_true test phrases = existsb test phrases.
Proof.
  induction phrases as [|p ps IH]; simpl; [done|].
  rewrite IH. by destruct (test p).
Qed.

Lemma existsb_same_elements {A} (f : A -> bool) (l l' : list A) :
  (forall x, In x l <-> In x l') -> existsb f l = existsb f l'.
Proof.
  intros H. apply Bool.eq_iff_eq_true. rewrite !existsb_exists.
  split; intros (x & Hx & Hf); exists x; split; auto; by apply H.
Qed.

Lemma forallb_same_elements {A} (f : A -> bool) (l l' : list A) :
  (forall x, In x l <-> In x l') -> forallb f l = forallb f l'.
Proof.
  intros H. apply Bool.eq_iff_eq_true. rewrite !forallb_forall.
  split; intros Hall x Hx; apply Hall; by apply H.
Qed.

End LoopFacts.

(** ** Matching *)

Lemma truthy_string_true s : truthy_string s = true <-> s <> "".
Proof. destruct s; simpl; split; congruence. Qed.

Lemma matchPhrase_true phrase fullText :
  matchPhrase phrase fullText = true <->
  exists pre post,
    Js.toLowerCase fullText = pre +:+ Js.toLowerCase phrase +:+ post.
Proof.
  unfold matchPhrase. rewrite Z.ltb_lt. apply indexOf_found.
Qed.

Lemma DefaultPhrase_match_existsb p study :
  DefaultPhrase.match_ p study =
  existsb (field_matches (DefaultPhrase.phrase p) study) (DefaultPhrase.fields p).
Proof.
  unfold DefaultPhrase.match_.
  rewrite <- (orb_false_l (existsb _ _)), <- fold_left_orb.
  apply fold_left_pointwise. intros acc fieldName.
  unfold DefaultPhrase.match_step, field_matches.
  destruct (study !! fieldName) as [v|]; [|done].
  by destruct (truthy_string v).
Qed.

(** C7. A single-value phrase matches a study exactly when one of its
    fields has, on the study, a non-empty value that contains the phrase
    string, both taken in lower case; it matches no study on which each of
    its fields is absent or empty. *)
Theorem DefaultPhrase_match_iff (p : DefaultPhrase.t) (study : gmap string string) :
  (DefaultPhrase.match_ p study = true <->
   exists fieldName fieldValue,
     In fieldName (DefaultPhrase.fields p)
     /\ study !! fieldName = Some fieldValue
     /\ fieldValue <> ""
     /\ exists pre post,
          Js.toLowerCase fieldValue
          = pre +:+ Js.toLowerCase (DefaultPhrase.phrase p) +:+ post)
  /\ ((forall fieldName, In fieldName (DefaultPhrase.fields p) ->
         study !! fieldName = None \/ study !! fieldName = Some "") ->
      DefaultPhrase.match_ p study = false).
Proof.
  assert (Hiff : DefaultPhrase.match_ p study = true <->
    exists fieldName fieldValue,
      In fieldName (DefaultPhrase.fields p)
      /\ study !! fieldName = Some fieldValue
      /\ fieldValue <> ""
      /\ exists pre post,
           Js.toLowerCase fieldValue
           = pre +:+ Js.toLowerCase (DefaultPhrase.phrase p) +:+ post).
  { rewrite DefaultPhrase_match_existsb, existsb_exists. unfold field_matches.
    split.
    - intros (f & Hin & Hf). destruct (study !! f) as [v|] eqn:Hv; [|done].
      apply andb_true_iff in Hf as [Ht Hm].
      exists f, v. repeat split; auto.
      + by apply truthy_string_true.
      + by apply matchPhrase_true.
    - intros (f & v & Hin & Hv & Hne & Hsub). exists f. split; [done|].
      rewrite Hv. apply andb_true_iff. split.
      + by apply truthy_string_true.
      + by apply matchPhrase_true. }
  split; [exact Hiff|].
  intros Habsent. apply not_true_is_false. rewrite Hiff.
  intros (f & v & Hin & Hv & Hne & _).
  destruct (Habsent f Hin) as [H|H]; congruence.
Qed.

Lemma DefaultPhrase_match_iff_witness :
  DefaultPhrase.match_ (DefaultPhrase.new "lung" "type:lung" ["type"])
    {[ "type" := "Lung Cancer" ]} = true
  /\ DefaultPhrase.match_ (DefaultPhrase.new "lung" "type:lung" ["type"; "name"])
       {[ "type" := ""; "id" := "lung" ]} = false.
Proof.
  split.
  - apply (DefaultPhrase_match_iff (DefaultPhrase.new "lung" "type:lung" ["type"])
             {[ "type" := "Lung Cancer" ]}).
    exists "type", "Lung Cancer".
    split; [left; reflexivity|]. split; [reflexivity|]. split; [discriminate|].
    exists "", " cancer". reflexivity.
  - apply (DefaultPhrase_match_iff
             (DefaultPhrase.new "lung" "type:lung" ["type"; "name"])
             {[ "type" := ""; "id" := "lung" ]}).
    intros fieldName [<-|[<-|[]]]; [right | left]; reflexivity.
Defined.

Lemma ListPhrase_inner_loop (lp : ListPhrase.t) (fieldValue : string) :
  fold_left (ListPhrase.entry_step lp fieldValue) (ListPhrase._phraseList lp) false
  = List.last (map (fun _ : string => matchPhrase (ListPhrase.phrase lp) fieldValue)
                   (ListPhrase.phraseList lp)) false.
Proof. apply (fold_left_assign (fun _ : string => _)). Qed.

Lemma ListPhrase_match_existsb lp study :
  ListPhrase.match_ lp study = existsb (list_field_flag lp study) (ListPhrase.fields lp).
Proof.
  unfold ListPhrase.match_.
  rewrite <- (orb_false_l (existsb _ _)), <- fold_left_orb.
  apply fold_left_pointwise. intros acc fieldName.
  unfold ListPhrase.match_step, list_field_flag.
  destruct (study !! fieldName) as [v|]; [|done].
  rewrite ListPhrase_inner_loop. by destruct (truthy_string v).
Qed.

Lemma forallb_pointwise {A} (f g : A -> bool) (l : list A) :
  (forall x, f x = g x) -> forallb f l = forallb g l.
Proof.
  intros Hfg. induction l as [|x l IH]; simpl; [done|]. by rewrite Hfg, IH.
Qed.

Lemma existsb_pointwise {A} (f g : A -> bool) (l : list A) :
  (forall x, f x = g x) -> existsb f l = existsb g l.
Proof.
  intros Hfg. induction l as [|x l IH]; simpl; [done|]. by rewrite Hfg, IH.
Qed.

(** C1. The code at the input where it departs from the claim: on the
    list [a,b] and a study whose tag is [b], the last entry [b] is found in
    the value, so the flag of the field should end up true, and the list
    match answers false, because every iteration looks for [a,b] and none
    reads the entry. *)
Lemma ListPhrase_match_not_last_entry :
  let lp := ListPhrase.new "a,b" "tag:a,b" ["tag"] in
  let study : gmap string string := {[ "tag" := "b" ]} in
  ListPhrase.phraseList lp = ["a"; "b"]
  /\ matchPhrase "b" "b" = true
  /\ spec_last_entry_match lp study = true
  /\ ListPhrase.match_ lp study = false.
Proof. repeat split; reflexivity. Qed.

Lemma list_field_flag_constructed phrase text fields study fieldName :
  list_field_flag (ListPhrase.new phrase text fields) study fieldName
  = field_matches (ListPhrase.phrase (ListPhrase.new phrase text fields)) study fieldName.
Proof.
  unfold list_field_flag, field_matches.
  destruct (study !! fieldName) as [v|]; [|done].
  rewrite last_map_const; [done|]. apply split_not_nil.
Qed.

(** C2. The match of a list phrase built from [(phrase, text, fields)] is
    the match of the single-value phrase built from the rejoined list, the
    same text and the same fields: each field with a truthy value is tested
    once for the whole rejoined string, which is the string the list phrase
    was built from; the entries of the list have no part in it. *)
Theorem ListPhrase_match_as_DefaultPhrase
    (phrase text : string) (fields : list FieldName) (study : gmap string string) :
  let lp := ListPhrase.new phrase text fields in
  let phrase' := Js.join FILTER_VALUE_SEPARATOR (ListPhrase.phraseList lp) in
  ListPhrase.match_ lp study
  = DefaultPhrase.match_ (DefaultPhrase.new phrase' text fields) study
  /\ ListPhrase.match_ lp study = existsb (field_matches phrase' study) fields
  /\ phrase' = phrase.
Proof.
  intros lp phrase'.
  assert (Hm : ListPhrase.match_ lp study = existsb (field_matches phrase' study) fields).
  { rewrite ListPhrase_match_existsb. apply existsb_pointwise.
    intros fieldName. apply list_field_flag_constructed. }
  split; [|split; [exact Hm|apply join_split]].
  by rewrite Hm, DefaultPhrase_match_existsb.
Qed.

(** ** Equality of phrases *)

Lemma isEqual_true {A} `{EqDecision A} (x y : A) : Js.isEqual x y = true <-> x = y.
Proof. unfold Js.isEqual. apply bool_decide_eq_true. Qed.

Lemma Phrase_fields_truthy o : Js.truthy_prop (Phrase_fields o) = true.
Proof. by destruct o. Qed.

(** C3 (as amended). A single-value phrase [p] equals [other] exactly when
    [other] is a phrase, of either class, whose phrase string (for a list
    phrase, its entries rejoined) is not empty and is the phrase string of
    [p], character for character, and whose fields are those of [p],
    element by element and in order. *)
Theorem DefaultPhrase_equals_iff (p : DefaultPhrase.t) (other : JsRef Phrase) :
  DefaultPhrase_equals p other = true <->
  exists q : Phrase,
    other = JsObj q
    /\ Phrase_phrase q <> ""
    /\ DefaultPhrase.phrase p = Phrase_phrase q
    /\ Phrase_fields q = Some (DefaultPhrase.fields p).
Proof.
  destruct other as [| |q]; simpl.
  - split; [discriminate | intros (q & H & _); discriminate].
  - split; [discriminate | intros (q & H & _); discriminate].
  - rewrite Phrase_fields_truthy, orb_false_r.
    destruct (truthy_string (Phrase_phrase q)) eqn:Ht; simpl.
    + apply truthy_string_true in Ht.
      destruct (String.eqb_spec (DefaultPhrase.phrase p) (Phrase_phrase q)) as [He|Hne]; simpl.
      * rewrite isEqual_true. split.
        -- intros Hf. exists q. by repeat split.
        -- intros (q' & [= <-] & _ & _ & Hf). done.
      * split; [discriminate|]. intros (q' & [= <-] & _ & He & _). done.
    + split; [discriminate|]. intros (q' & [= <-] & Hne & _).
      apply truthy_string_true in Hne. congruence.
Qed.

(** C3, the claim as stated, refuted in both directions: a single-value
    phrase equals a list phrase with the same phrase string and fields, and
    a single-value phrase with the empty phrase string does not equal a
    single-value phrase with the same string and fields. *)
Lemma DefaultPhrase_equals_other_variant :
  DefaultPhrase_equals (DefaultPhrase.new "a" "t:a" ["f"])
    (JsObj (List (ListPhrase.new "a" "t:a" ["f"]))) = true
  /\ DefaultPhrase_equals (DefaultPhrase.new "" "t:" ["f"])
       (JsObj (Default (DefaultPhrase.new "" "t:" ["f"]))) = false.
Proof. split; reflexivity. Qed.

(** C4 (as amended). A list phrase equals itself; a single-value phrase
    equals itself exactly when its phrase string is not empty; no phrase
    equals [null] or [undefined], and the comparison does not fail. *)
Theorem Phrase_equals_self_and_null (P : Phrase) :
  Phrase_equals P (JsObj P)
  = match P with
    | List _ => true
    | Default d => truthy_string (DefaultPhrase.phrase d)
    end
  /\ Phrase_equals P JsNull = false
  /\ Phrase_equals P JsUndefined = false.
Proof.
  split; [|by destruct P].
  destruct P as [d|l]; simpl.
  - destruct (truthy_string (DefaultPhrase.phrase d)); simpl; [|done].
    rewrite String.eqb_refl. simpl. by apply isEqual_true.
  - assert (H : forall {A} `{EqDecision A} (x : A), Js.isEqual x x = true)
      by (intros; by apply isEqual_true).
    by rewrite !H.
Qed.

(** C4, the claim as stated, refuted: a single-value phrase with the empty
    phrase string is not equal to itself. *)
Lemma Phrase_equals_not_reflexive :
  let P := Default (DefaultPhrase.new "" "type:" ["type"]) in
  Phrase_equals P (JsObj P) = false.
Proof. reflexivity. Qed.

(** ** Construction of a list phrase *)

Lemma split_hd_before sep pre post :
  Js.indexOf pre (Js.str sep) = (-1)%Z ->
  hd "" (Js.split sep (pre +:+ String sep post)) = pre.
Proof.
  induction pre as [|c pre IH].
  - intros _. simpl. by rewrite Ascii.eqb_refl.
  - intros [Hne Hpre]%indexOf_char_cons. rewrite append_cons. simpl.
    destruct (Ascii.eqb_spec c sep); [done|].
    specialize (IH Hpre).
    destruct (Js.split sep (pre +:+ String sep post)); simpl in *; by subst.
Qed.

(** C8. The constructor of a list phrase keeps the pieces of the input
    between the commas, none of which holds a comma; its prefix is the first
    piece of the text between the colons: the whole text when it has no
    colon, and what stands before the first colon otherwise. The phrase
    getter rejoins the list with commas, and gives the input back for every
    input string. *)
Theorem ListPhrase_new_split_join (x text : string) (fields : list FieldName) :
  let lp := ListPhrase.new x text fields in
  ListPhrase.phraseList lp = Js.split FILTER_VALUE_SEPARATOR x
  /\ Forall (fun entry => Js.indexOf entry (Js.str FILTER_VALUE_SEPARATOR) = (-1)%Z)
            (ListPhrase.phraseList lp)
  /\ ListPhrase.prefix lp = hd "" (Js.split FILTER_SEPARATOR text)
  /\ (Js.indexOf text (Js.str FILTER_SEPARATOR) = (-1)%Z -> ListPhrase.prefix lp = text)
  /\ (forall pre post,
        text = pre +:+ String FILTER_SEPARATOR post ->
        Js.indexOf pre (Js.str FILTER_SEPARATOR) = (-1)%Z ->
        ListPhrase.prefix lp = pre)
  /\ ListPhrase.phrase lp = Js.join FILTER_VALUE_SEPARATOR (ListPhrase.phraseList lp)
  /\ ListPhrase.phrase lp = x.
Proof.
  intros lp. split; [reflexivity|]. split; [apply split_segments|].
  split; [reflexivity|]. split.
  { intros Habsent. unfold lp, ListPhrase.prefix, ListPhrase.new. simpl.
    by rewrite (split_absent _ _ Habsent). }
  split.
  { intros pre post -> Hpre. by apply split_hd_before. }
  split; [reflexivity | apply join_split].
Qed.

Lemma ListPhrase_new_split_join_witness :
  let lp := ListPhrase.new "a,b" "tag:a,b" ["tag"] in
  ListPhrase.phraseList lp = ["a"; "b"]
  /\ ListPhrase.prefix lp = "tag"
  /\ ListPhrase.phrase lp = "a,b"
  /\ ListPhrase.prefix (ListPhrase.new "lung" "lung" ["name"]) = "lung".
Proof.
  destruct (ListPhrase_new_split_join "a,b" "tag:a,b" ["tag"])
    as (Hlist & _ & _ & _ & Hbefore & _ & Hphrase).
  destruct (ListPhrase_new_split_join "lung" "lung" ["name"])
    as (_ & _ & _ & Hwhole & _).
  split; [exact Hlist|]. split; [|split].
  - apply (Hbefore "tag" "a,b"); reflexivity.
  - exact Hphrase.
  - apply Hwhole. reflexivity.
Defined.

(** ** Serialization of clauses *)

(** C9. A not-clause prints as a dash, a space and the text of its phrase,
    and as the empty string without a phrase; an and-clause prints as the
    texts of its phrases, in order, with one space between two neighbours,
    and as the empty string when it has no phrase. *)
Theorem clause_toString (p : Phrase) (phrases : list Phrase) :
  NotSearchClause_toString (JsObj p) = "- " +:+ Phrase_toString p
  /\ NotSearchClause_toString JsNull = ""
  /\ NotSearchClause_toString JsUndefined = ""
  /\ AndSearchClause_toString phrases
     = String.concat " " (map Phrase_toString phrases)
  /\ AndSearchClause_toString [] = ""
  /\ AndSearchClause_toString [p] = Phrase_toString p
  /\ (phrases <> [] ->
      AndSearchClause_toString (p :: phrases)
      = Phrase_toString p +:+ " " +:+ AndSearchClause_toString phrases).
Proof.
  repeat split; try reflexivity.
  - by destruct phrases.
  - intros Hne. destruct phrases as [|q phrases]; [done|]. reflexivity.
Qed.

Lemma clause_toString_witness :
  let phraseA := Default (DefaultPhrase.new "lung" "type:lung" ["type"]) in
  let phraseB := List (ListPhrase.new "TCGA" "study:TCGA" ["study"]) in
  NotSearchClause_toString (JsObj phraseA) = "- type:lung"
  /\ AndSearchClause_toString [phraseA; phraseB] = "type:lung study:TCGA".
Proof.
  intros phraseA phraseB. split.
  - apply (clause_toString phraseA []).
  - apply (clause_toString phraseA [phraseB]). discriminate.
Defined.

(** ** Containment and equality of clauses *)

Lemma AndSearchClause_contains_phrase phrases q :
  AndSearchClause_contains phrases (MatchRef (JsObj q))
  = existsb (fun phrase => Phrase_equals phrase (JsObj q)) phrases.
Proof. apply for_return_true_existsb. Qed.

Lemma for_of_containsAll phrases items containsAll :
  for_of (containsAll_step (AndSearchClause phrases)) items containsAll
  = Normal (containsAll
            && forallb (fun item => AndSearchClause_contains phrases (MatchRef (JsObj item)))
                       items).
Proof.
  revert containsAll. induction items as [|item items IH]; intros containsAll.
  - simpl. by rewrite andb_true_r.
  - simpl for_of. destruct containsAll; simpl.
    + apply IH.
    + rewrite IH. reflexivity.
Qed.

Lemma AndSearchClause_equals_forallb a b :
  AndSearchClause_equals a (AndSearchClause b)
  = Normal (forallb (fun p => AndSearchClause_contains b (MatchRef (JsObj p))) a
            && forallb (fun q => AndSearchClause_contains a (MatchRef (JsObj q))) b).
Proof.
  unfold AndSearchClause_equals. rewrite for_of_containsAll. simpl.
  apply for_of_containsAll.
Qed.

Lemma contains_same_elements (ps ps' : list Phrase) q :
  (forall x, In x ps <-> In x ps') ->
  AndSearchClause_contains ps (MatchRef (JsObj q))
  = AndSearchClause_contains ps' (MatchRef (JsObj q)).
Proof.
  intros H. rewrite !AndSearchClause_contains_phrase. by apply existsb_same_elements.
Qed.

Lemma forallb_contains_same_elements (a a' b b' : list Phrase) :
  (forall x, In x a <-> In x a') ->
  (forall x, In x b <-> In x b') ->
  forallb (fun p => AndSearchClause_contains b (MatchRef (JsObj p))) a
  = forallb (fun p => AndSearchClause_contains b' (MatchRef (JsObj p))) a'.
Proof.
  intros Ha Hb. rewrite (forallb_same_elements _ a a' Ha).
  apply forallb_pointwise. intros p. by apply contains_same_elements.
Qed.

(** C5 (as amended). An and-clause never equals a not-clause. It equals an
    and-clause exactly when each of its phrases is contained in the other
    and each phrase of the other is contained in it; the comparison never
    fails, gives the same answer in both directions, and depends on the
    phrases of each side only as a set, not on their order or number of
    copies. [AndSearchClause([x,y]).equals(AndSearchClause([y,x]))] is true
    for phrases [x] and [y] that each equal themselves. *)
Theorem AndSearchClause_equals_mutual (a b : list Phrase) :
  let contained (p : Phrase) (ps : list Phrase) :=
    AndSearchClause_contains ps (MatchRef (JsObj p)) in
  (forall n, AndSearchClause_equals a (NotSearchClause n) = Normal false)
  /\ AndSearchClause_equals a (AndSearchClause b)
     = Normal (forallb (fun p => contained p b) a && forallb (fun q => contained q a) b)
  /\ (AndSearchClause_equals a (AndSearchClause b) = Normal true <->
      (forall p, In p a -> contained p b = true)
      /\ (forall q, In q b -> contained q a = true))
  /\ AndSearchClause_equals a (AndSearchClause b)
     = AndSearchClause_equals b (AndSearchClause a)
  /\ (forall a' b',
        (forall x, In x a <-> In x a') ->
        (forall x, In x b <-> In x b') ->
        AndSearchClause_equals a' (AndSearchClause b')
        = AndSearchClause_equals a (AndSearchClause b))
  /\ (forall x y,
        Phrase_equals x (JsObj x) = true ->
        Phrase_equals y (JsObj y) = true ->
        AndSearchClause_equals [x; y] (AndSearchClause [y; x]) = Normal true).
Proof.
  intros contained. subst contained. cbv beta.
  split; [reflexivity|]. split; [apply AndSearchClause_equals_forallb|].
  split.
  { rewrite AndSearchClause_equals_forallb. split.
    - intros [= H]. apply andb_true_iff in H as [Ha Hb].
      rewrite forallb_forall in Ha, Hb. by split.
    - intros [Ha Hb]. f_equal. apply andb_true_iff.
      by rewrite !forallb_forall. }
  split.
  { rewrite !AndSearchClause_equals_forallb. by rewrite andb_comm. }
  split.
  { intros a' b' Ha Hb. rewrite !AndSearchClause_equals_forallb. f_equal.
    f_equal; symmetry; by apply forallb_contains_same_elements. }
  intros x y Hx Hy. rewrite AndSearchClause_equals_forallb. cbn [forallb].
  rewrite !AndSearchClause_contains_phrase. cbn [existsb]. rewrite Hx, Hy.
  by rewrite !orb_true_r.
Qed.

Lemma AndSearchClause_equals_mutual_witness :
  let x := Default (DefaultPhrase.new "lung" "type:lung" ["type"]) in
  let y := List (ListPhrase.new "a,b" "tag:a,b" ["tag"]) in
  AndSearchClause_equals [x; y] (AndSearchClause [y; x]) = Normal true
  /\ AndSearchClause_equals [y; x; y] (AndSearchClause [x; y])
     = AndSearchClause_equals [x; y] (AndSearchClause [y; x]).
Proof.
  intros x y.
  destruct (AndSearchClause_equals_mutual [x; y] [y; x])
    as (_ & _ & _ & _ & Hset & Hswap).
  split.
  - apply (Hswap x y); reflexivity.
  - apply (Hset [y; x; y] [x; y]); intros z; simpl; tauto.
Defined.

(** C5, the claim as stated, refuted: with a single-value phrase [e] whose
    phrase string is empty, the and-clause of [e] and [y] is not equal to
    the and-clause of [y] and [e]. *)
Lemma AndSearchClause_equals_swap_false :
  let e := Default (DefaultPhrase.new "" "type:" ["type"]) in
  let y := Default (DefaultPhrase.new "lung" "type:lung" ["type"]) in
  AndSearchClause_equals [e; y] (AndSearchClause [y; e]) = Normal false.
Proof. reflexivity. Qed.

(** C6. A not-clause never equals an and-clause, whatever the two hold;
    compared with another not-clause it answers what [contains] of the
    other clause answers for its own phrase, that is, whether the phrase of
    the other clause equals its own. The answer in one direction need not
    be the answer in the other. *)
Theorem NotSearchClause_equals_contains (n : JsRef Phrase) (c : ISearchClause) :
  (isAnd c = true -> NotSearchClause_equals n c = Normal false)
  /\ (isAnd c = false ->
      NotSearchClause_equals n c = ISearchClause_contains c (MatchRef n))
  /\ (forall phrases, NotSearchClause_equals n (AndSearchClause phrases) = Normal false)
  /\ (forall p q,
        NotSearchClause_equals (JsObj p) (NotSearchClause (JsObj q))
        = Normal (Phrase_equals q (JsObj p)))
  /\ (exists p q,
        NotSearchClause_equals (JsObj p) (NotSearchClause (JsObj q)) = Normal true
        /\ NotSearchClause_equals (JsObj q) (NotSearchClause (JsObj p)) = Normal false).
Proof.
  split; [|split; [|split; [|split]]].
  - unfold NotSearchClause_equals. by intros ->.
  - unfold NotSearchClause_equals. by intros ->.
  - reflexivity.
  - reflexivity.
  - exists (List (ListPhrase.new "a" "t:a" ["f"])),
           (Default (DefaultPhrase.new "a" "t:a" ["f"])).
    split; reflexivity.
Qed.

Lemma NotSearchClause_equals_contains_witness :
  let p := Default (DefaultPhrase.new "lung" "type:lung" ["type"]) in
  NotSearchClause_equals (JsObj p) (AndSearchClause [p]) = Normal false
  /\ NotSearchClause_equals (JsObj p) (NotSearchClause (JsObj p))
     = ISearchClause_contains (NotSearchClause (JsObj p)) (MatchRef (JsObj p)).
Proof.
  intros p. split.
  - destruct (NotSearchClause_equals_contains (JsObj p) (AndSearchClause [p]))
      as (Hand & _).
    apply Hand. reflexivity.
  - destruct (NotSearchClause_equals_contains (JsObj p) (NotSearchClause (JsObj p)))
      as (_ & Hnot & _).
    apply Hnot. reflexivity.
Defined.

(** ** The mutation-assessor formatter *)

(** What the formatter gives for the impact [H] in either case, for an
    impact that names no property of the score map, own or inherited, and
    without an impact. *)
Lemma formatter_known_and_missing {Number : Type} (data : IColumnFormatterData Number) :
  (forall s, impact (getData data) = Some s ->
     Js.toLowerCase s = "h" ->
     getDisplayValue data = Some "High"
     /\ getScoreClassName data = Some "oma-high"
     /\ sortPriority data = Some 4%Z)
  /\ (forall s, impact (getData data) = Some s ->
        MA_SCORE_MAP_read (Js.toLowerCase s) = Missing ->
        getDisplayValue data = Some s /\ getScoreClassName data = Some "")
  /\ (impact (getData data) = None ->
      getDisplayValue data = Some "" /\ getScoreClassName data = Some "").
Proof.
unfold getDisplayValue, getScoreClassName, sortPriority, getTextValue,
  getMapEntry, truthy_impact.
split; [|split].
- intros s -> Hlow.
  destruct s as [|c s]; [discriminate|]. simpl truthy_string. cbv iota.
  rewrite Hlow. by vm_compute.
- intros s -> Hnone.
  destruct s as [|c s]; [done|]. simpl truthy_string. cbv iota.
  by rewrite Hnone.
- by intros ->.
Qed.

(** C10. The code at the input where it departs from the claim: the impact
    [constructor] is not a key of the score map, so the display value
    should be the impact as it stands and the class of the score empty;
    the read of the map finds the inherited property, and both come out
    [undefined]. *)
Theorem formatter_impact_inherited_key :
  let cell : IColumnFormatterData Z :=
    {| name := "mutationAssessor";
       columnData := None;
       rowData := Some [ {| functionalImpactScore := Some "constructor";
                            fisValue := None; linkPdb := None; linkMsa := None;
                            linkXvar := None |} ] |} in
  MA_SCORE_MAP !! "constructor" = None
  /\ getTextValue cell = "constructor"
  /\ getMapEntry cell = Inherited
  /\ getDisplayValue cell = None
  /\ getScoreClassName cell = None.
Proof. by vm_compute. Qed.

(** * Further properties of the code *)

(** ** More on strings *)

Section MoreStringFacts.

Implicit Types s t u pattern : string.

Lemma append_assoc s t u : (s +:+ t) +:+ u = s +:+ t +:+ u.
Proof.
induction s as [|c s IH]; [done|]. by rewrite !append_cons, IH.
Qed.

Lemma append_nil_r s : s +:+ "" = s.
Proof.
induction s as [|c s IH]; [done|]. by rewrite append_cons, IH.
Qed.

Lemma toLowerCase_app s t :
  Js.toLowerCase (s +:+ t) = Js.toLowerCase s +:+ Js.toLowerCase t.
Proof.
induction s as [|c s IH]; [done|].
rewrite append_cons. simpl. by rewrite append_cons, IH.
Qed.

Lemma lower_ascii_idem c : Js.lower_ascii (Js.lower_ascii c) = Js.lower_ascii c.
Proof.
by destruct c as [[] [] [] [] [] [] [] []].
Qed.

Lemma toLowerCase_idem s : Js.toLowerCase (Js.toLowerCase s) = Js.toLowerCase s.
Proof.
induction s as [|c s IH]; simpl; [done|]. by rewrite lower_ascii_idem, IH.
Qed.

(** A member of a list occurs in the join of the list. *)
Lemma concat_In sep (l : list string) e :
  In e l -> exists pre post, String.concat sep l = pre +:+ e +:+ post.
Proof.
induction l as [|x l IH]; [done|]. intros [->|Hin].
- destruct l as [|y l].
  + exists "", "". simpl. by rewrite append_nil_r.
  + exists "", (sep +:+ String.concat sep (y :: l)). by rewrite concat_cons_cons.
- destruct l as [|y l]; [done|].
  destruct (IH Hin) as (pre & post & Heq).
  exists (x +:+ sep +:+ pre), post.
  rewrite concat_cons_cons, Heq. by rewrite !append_assoc.
Qed.

End MoreStringFacts.

(** ** The substring test *)

Lemma matchPhrase_refl t : matchPhrase t t = true.
Proof.
apply matchPhrase_true. exists "", "". simpl. by rewrite append_nil_r.
Qed.

Lemma matchPhrase_trans a b c :
  matchPhrase a b = true -> matchPhrase b c = true -> matchPhrase a c = true.
Proof.
rewrite !matchPhrase_true. intros (pre & post & Hab) (pre' & post' & Hbc).
exists (pre' +:+ pre), (post +:+ post').
rewrite Hbc, Hab. by rewrite !append_assoc.
Qed.

(** X1. The substring test is reflexive and transitive: every text is
    found in itself, and a phrase found in a text that is itself found in a
    larger text is found in the larger text. *)
Theorem matchPhrase_preorder (a b c : string) :
  matchPhrase a a = true
  /\ (matchPhrase a b = true -> matchPhrase b c = true -> matchPhrase a c = true).
Proof.
split; [apply matchPhrase_refl | apply matchPhrase_trans].
Qed.

Lemma matchPhrase_preorder_witness :
  matchPhrase "lung" "Lung Cancer" = true
  /\ matchPhrase "Lung Cancer" "Non-small cell LUNG CANCER (TCGA)" = true
  /\ matchPhrase "lung" "Non-small cell LUNG CANCER (TCGA)" = true.
Proof.
split; [reflexivity|]. split; [reflexivity|].
apply (matchPhrase_preorder "lung" "Lung Cancer" "Non-small cell LUNG CANCER (TCGA)");
  reflexivity.
Defined.

(** X2. The substring test ignores the case of both arguments, and the
    empty phrase is found in every text. *)
Theorem matchPhrase_case_empty (phrase fullText : string) :
  matchPhrase (Js.toLowerCase phrase) fullText = matchPhrase phrase fullText
  /\ matchPhrase phrase (Js.toLowerCase fullText) = matchPhrase phrase fullText
  /\ matchPhrase "" fullText = true.
Proof.
split; [unfold matchPhrase; by rewrite toLowerCase_idem|].
split; [unfold matchPhrase; by rewrite toLowerCase_idem|].
apply matchPhrase_true. by exists "", (Js.toLowerCase fullText).
Qed.

(** ** The single-value match and the fields *)

Lemma field_matches_empty_phrase study fieldName :
  field_matches "" study fieldName
  = match study !! fieldName with
    | Some fieldValue => truthy_string fieldValue
    | None => false
    end.
Proof.
unfold field_matches. destruct (study !! fieldName) as [v|]; [|done].
assert (matchPhrase "" v = true) as ->
  by (apply matchPhrase_true; by exists "", (Js.toLowerCase v)).
by rewrite andb_true_r.
Qed.

(** X3. The single-value match depends on the fields of the phrase as a
    set, and not on its text: without fields nothing matches, the match
    over two lists of fields put together is the disjunction of the two
    matches, and two lists with the same members give the same match. *)
Theorem DefaultPhrase_match_fields
    (phrase text text' : string) (fields fields' : list FieldName)
    (study : gmap string string) :
  DefaultPhrase.match_ (DefaultPhrase.new phrase text []) study = false
  /\ DefaultPhrase.match_ (DefaultPhrase.new phrase text (fields ++ fields')) study
     = DefaultPhrase.match_ (DefaultPhrase.new phrase text fields) study
       || DefaultPhrase.match_ (DefaultPhrase.new phrase text' fields') study
  /\ ((forall f, In f fields <-> In f fields') ->
      DefaultPhrase.match_ (DefaultPhrase.new phrase text fields) study
      = DefaultPhrase.match_ (DefaultPhrase.new phrase text' fields') study).
Proof.
split; [reflexivity|]. rewrite !DefaultPhrase_match_existsb. simpl. split.
- apply existsb_app.
- apply existsb_same_elements.
Qed.

Lemma DefaultPhrase_match_fields_witness :
  let study : gmap string string := {[ "name" := "Lung study" ]} in
  DefaultPhrase.match_ (DefaultPhrase.new "lung" "lung" ["name"; "id"; "name"]) study
  = DefaultPhrase.match_ (DefaultPhrase.new "lung" "name:lung" ["id"; "name"]) study.
Proof.
intros study.
apply (DefaultPhrase_match_fields "lung" "lung" "name:lung"
         ["name"; "id"; "name"] ["id"; "name"] study).
intros f. simpl. tauto.
Defined.

(** X4. A single-value phrase whose phrase string is empty matches exactly
    the studies on which one of its fields has a non-empty value. *)
Theorem DefaultPhrase_match_empty_phrase
    (text : string) (fields : list FieldName) (study : gmap string string) :
  DefaultPhrase.match_ (DefaultPhrase.new "" text fields) study = true <->
  exists fieldName fieldValue,
    In fieldName fields /\ study !! fieldName = Some fieldValue /\ fieldValue <> "".
Proof.
rewrite DefaultPhrase_match_existsb, existsb_exists. simpl. split.
- intros (f & Hin & Hf). rewrite field_matches_empty_phrase in Hf.
  destruct (study !! f) as [v|] eqn:Hv; [|done].
  exists f, v. repeat split; auto. by apply truthy_string_true.
- intros (f & v & Hin & Hv & Hne). exists f. split; [done|].
  rewrite field_matches_empty_phrase, Hv. by apply truthy_string_true.
Qed.

(** ** The list match and the entries *)

Lemma matchPhrase_entry_joined sep (l : list string) e :
  In e l -> matchPhrase e (String.concat sep l) = true.
Proof.
intros (pre & post & Heq)%(concat_In sep). apply matchPhrase_true.
exists (Js.toLowerCase pre), (Js.toLowerCase post).
by rewrite Heq, !toLowerCase_app.
Qed.

(** X5. When a list phrase built by the constructor matches a study, one
    field of the phrase has a non-empty value in which every entry of the
    list is found. *)
Theorem ListPhrase_match_all_entries
    (phrase text : string) (fields : list FieldName) (study : gmap string string) :
  ListPhrase.match_ (ListPhrase.new phrase text fields) study = true ->
  exists fieldName fieldValue,
    In fieldName fields
    /\ study !! fieldName = Some fieldValue
    /\ fieldValue <> ""
    /\ forall entry,
         In entry (ListPhrase.phraseList (ListPhrase.new phrase text fields)) ->
         matchPhrase entry fieldValue = true.
Proof.
rewrite ListPhrase_match_existsb, existsb_exists.
intros (f & Hin & Hf). rewrite list_field_flag_constructed in Hf.
unfold field_matches in Hf. destruct (study !! f) as [v|] eqn:Hv; [|done].
apply andb_true_iff in Hf as [Ht Hm].
exists f, v. repeat split; auto; [by apply truthy_string_true|].
intros entry Hentry. apply (matchPhrase_trans _ _ _ (matchPhrase_entry_joined _ _ _ Hentry) Hm).
Qed.

Lemma ListPhrase_match_all_entries_witness :
  exists fieldName fieldValue,
    In fieldName ["tag"]
    /\ ({[ "tag" := "x, A,B and c" ]} : gmap string string) !! fieldName = Some fieldValue
    /\ fieldValue <> ""
    /\ forall entry,
         In entry (ListPhrase.phraseList (ListPhrase.new "a,b" "tag:a,b" ["tag"])) ->
         matchPhrase entry fieldValue = true.
Proof.
apply (ListPhrase_match_all_entries "a,b" "tag:a,b" ["tag"] {[ "tag" := "x, A,B and c" ]}).
reflexivity.
Defined.

(** ** More on the equality of phrases *)

Lemma DefaultPhrase_equals_inv d q :
  DefaultPhrase_equals d (JsObj q) = true ->
  Phrase_phrase q <> ""
  /\ DefaultPhrase.phrase d = Phrase_phrase q
  /\ Phrase_fields q = Some (DefaultPhrase.fields d).
Proof.
simpl. rewrite Phrase_fields_truthy, orb_false_r.
destruct (truthy_string (Phrase_phrase q)) eqn:Ht; simpl; [|done].
destruct (String.eqb_spec (DefaultPhrase.phrase d) (Phrase_phrase q)) as [He|];
  simpl; [|done].
intros Hf. apply (proj1 (isEqual_true _ _)) in Hf.
split; [by apply truthy_string_true|].
split; [exact He | by symmetry].
Qed.

Lemma DefaultPhrase_equals_intro d q :
  Phrase_phrase q <> "" ->
  DefaultPhrase.phrase d = Phrase_phrase q ->
  Phrase_fields q = Some (DefaultPhrase.fields d) ->
  DefaultPhrase_equals d (JsObj q) = true.
Proof.
intros Hne%truthy_string_true Hp Hf. simpl.
rewrite Phrase_fields_truthy, Hne, Hp, String.eqb_refl. simpl.
by apply isEqual_true.
Qed.

Lemma ListPhrase_equals_inv l q :
  ListPhrase_equals l (JsObj q) = true ->
  exists l', q = List l'
    /\ ListPhrase._phraseList l' = ListPhrase._phraseList l
    /\ ListPhrase.fields l' = ListPhrase.fields l.
Proof.
destruct q as [d|l']; simpl; [done|].
destruct (Js.isEqual (Some (ListPhrase._phraseList l)) (Some (ListPhrase._phraseList l')))
  eqn:Hl; simpl; [|done].
apply (proj1 (isEqual_true _ _)) in Hl.
intros Hf. apply (proj1 (isEqual_true _ _)) in Hf.
exists l'. split; [done|]. split; congruence.
Qed.

Lemma ListPhrase_equals_intro l l' :
  ListPhrase._phraseList l' = ListPhrase._phraseList l ->
  ListPhrase.fields l' = ListPhrase.fields l ->
  ListPhrase_equals l (JsObj (List l')) = true.
Proof.
intros Hl Hf. simpl. rewrite Hl, Hf.
assert (H : forall {A} `{EqDecision A} (x : A), Js.isEqual x x = true)
  by (intros; by apply isEqual_true).
by rewrite !H.
Qed.

Lemma split_injective sep s s' : Js.split sep s = Js.split sep s' -> s = s'.
Proof.
intros H. by rewrite <- (join_split sep s), <- (join_split sep s'), H.
Qed.

(** X6. A list phrase equals exactly the list phrases that have the same
    entries and the same fields, in the same order; it equals no
    single-value phrase. Two list phrases built by the constructor are
    equal exactly when they were built from the same phrase string and the
    same fields, whatever their texts. *)
Theorem ListPhrase_equals_iff
    (l : ListPhrase.t) (other : JsRef Phrase)
    (x x' text text' : string) (fields fields' : list FieldName) :
  (ListPhrase_equals l other = true <->
   exists l', other = JsObj (List l')
     /\ ListPhrase.phraseList l' = ListPhrase.phraseList l
     /\ ListPhrase.fields l' = ListPhrase.fields l)
  /\ (forall d, ListPhrase_equals l (JsObj (Default d)) = false)
  /\ (ListPhrase_equals (ListPhrase.new x text fields)
        (JsObj (List (ListPhrase.new x' text' fields'))) = true <->
      x = x' /\ fields = fields').
Proof.
split; [|split; [reflexivity|]].
- destruct other as [| |q].
  + split; [discriminate | intros (l' & H & _); discriminate].
  + split; [discriminate | intros (l' & H & _); discriminate].
  + split.
    * intros (l' & -> & Hl & Hf)%ListPhrase_equals_inv. by exists l'.
    * intros (l' & [= ->] & Hl & Hf). by apply ListPhrase_equals_intro.
- split.
  + intros (l' & [= <-] & Hl & Hf)%ListPhrase_equals_inv. simpl in *.
    split; [|done]. symmetry. by apply (split_injective FILTER_VALUE_SEPARATOR).
  + intros [-> ->]. by apply ListPhrase_equals_intro.
Qed.

Lemma Phrase_equals_trans (r q p : Phrase) :
  Phrase_equals r (JsObj q) = true ->
  Phrase_equals q (JsObj p) = true ->
  Phrase_equals r (JsObj p) = true.
Proof.
destruct r as [dr|lr]; cbn [Phrase_equals]; intros H1 H2.
- apply DefaultPhrase_equals_inv in H1 as (Hne & Hp & Hf).
  assert (Phrase_phrase p <> ""
          /\ Phrase_phrase q = Phrase_phrase p
          /\ Phrase_fields p = Phrase_fields q) as (Hne' & Hp' & Hf').
  { destruct q as [dq|lq]; cbn [Phrase_equals] in H2.
    - apply DefaultPhrase_equals_inv in H2 as (? & ? & ?).
      cbn [Phrase_phrase Phrase_fields]. repeat split; congruence.
    - apply ListPhrase_equals_inv in H2 as (lp & -> & Hl & Hf').
      cbn [Phrase_phrase Phrase_fields] in *. unfold ListPhrase.phrase in *.
      rewrite Hl. repeat split; congruence. }
  apply DefaultPhrase_equals_intro; congruence.
- apply ListPhrase_equals_inv in H1 as (lq & -> & Hl & Hf).
  cbn [Phrase_equals] in H2.
  apply ListPhrase_equals_inv in H2 as (lp & -> & Hl' & Hf').
  apply ListPhrase_equals_intro; congruence.
Qed.

(** X7. The equality of phrases is transitive: when [r] equals [q] and [q]
    equals [p], then [r] equals [p]. *)
Theorem Phrase_equals_transitive (r q p : Phrase) :
  Phrase_equals r (JsObj q) = true ->
  Phrase_equals q (JsObj p) = true ->
  Phrase_equals r (JsObj p) = true.
Proof.
apply Phrase_equals_trans.
Qed.

Lemma Phrase_equals_transitive_witness :
  let r := Default (DefaultPhrase.new "a,b" "a,b" ["tag"]) in
  let q := List (ListPhrase.new "a,b" "tag:a,b" ["tag"]) in
  let p := List (ListPhrase.new "a,b" "tags:a,b" ["tag"]) in
  Phrase_equals r (JsObj p) = true.
Proof.
intros r q p. apply (Phrase_equals_transitive r q p); reflexivity.
Defined.

Lemma list_field_flag_same l l' study fieldName :
  ListPhrase._phraseList l' = ListPhrase._phraseList l ->
  list_field_flag l' study fieldName = list_field_flag l study fieldName.
Proof.
intros Hl. unfold list_field_flag, ListPhrase.phrase, ListPhrase.phraseList.
by rewrite Hl.
Qed.

Lemma list_field_flag_nonempty l study fieldName :
  ListPhrase.phrase l <> "" ->
  list_field_flag l study fieldName = field_matches (ListPhrase.phrase l) study fieldName.
Proof.
intros Hne. unfold list_field_flag, field_matches.
destruct (study !! fieldName) as [v|]; [|done].
rewrite last_map_const; [done|].
unfold ListPhrase.phraseList. intros Hnil. apply Hne.
unfold ListPhrase.phrase. by rewrite Hnil.
Qed.

(** X8. Equal phrases match the same studies: when [p] equals [q], the two
    give the same answer on every study. *)
Theorem Phrase_equals_same_match (p q : Phrase) (study : gmap string string) :
  Phrase_equals p (JsObj q) = true ->
  Phrase_match p study = Phrase_match q study.
Proof.
destruct p as [d|l]; simpl Phrase_equals; simpl Phrase_match.
- intros (Hne & Hp & Hf)%DefaultPhrase_equals_inv.
  rewrite DefaultPhrase_match_existsb.
  destruct q as [d'|l']; simpl in *.
  + rewrite DefaultPhrase_match_existsb. congruence.
  + rewrite ListPhrase_match_existsb. injection Hf as Hf. rewrite Hf, Hp.
    apply existsb_pointwise. intros f. symmetry. by apply list_field_flag_nonempty.
- intros (l' & -> & Hl & Hf)%ListPhrase_equals_inv. simpl.
  rewrite !ListPhrase_match_existsb, Hf.
  apply existsb_pointwise. intros f. symmetry. by apply list_field_flag_same.
Qed.

Lemma Phrase_equals_same_match_witness :
  let p := Default (DefaultPhrase.new "a,b" "a,b" ["tag"]) in
  let q := List (ListPhrase.new "a,b" "tag:a,b" ["tag"]) in
  let study : gmap string string := {[ "tag" := "xa,bx" ]} in
  Phrase_match p study = Phrase_match q study.
Proof.
intros p q study. apply (Phrase_equals_same_match p q study). reflexivity.
Defined.

(** ** The other round trip of the list phrase *)

Lemma split_cons_absent sep seg s :
  Js.indexOf seg (Js.str sep) = (-1)%Z ->
  Js.split sep (seg +:+ String sep s) = seg :: Js.split sep s.
Proof.
induction seg as [|c seg IH].
- intros _. simpl. by rewrite Ascii.eqb_refl.
- intros [Hne Hseg]%indexOf_char_cons. rewrite append_cons. simpl.
  destruct (Ascii.eqb_spec c sep); [done|]. by rewrite (IH Hseg).
Qed.

Lemma split_join sep (l : list string) :
  l <> [] ->
  Forall (fun seg => Js.indexOf seg (Js.str sep) = (-1)%Z) l ->
  Js.split sep (Js.join sep l) = l.
Proof.
unfold Js.join. induction l as [|x l IH]; [done|]. intros _ Hall.
inversion Hall as [|? ? Hx Hl]; subst.
destruct l as [|y l].
- simpl. by apply split_absent.
- rewrite concat_cons_cons. unfold Js.str at 1. rewrite append_cons.
  change ("" +:+ String.concat (Js.str sep) (y :: l))
    with (String.concat (Js.str sep) (y :: l)).
  rewrite split_cons_absent by done. by rewrite IH.
Qed.

(** X9. A list phrase built from values without a comma, joined by commas,
    has exactly these values as its entries, for one value or more. *)
Theorem ListPhrase_new_join
    (values : list string) (text : string) (fields : list FieldName) :
  values <> [] ->
  Forall (fun v => Js.indexOf v (Js.str FILTER_VALUE_SEPARATOR) = (-1)%Z) values ->
  ListPhrase.phraseList
    (ListPhrase.new (Js.join FILTER_VALUE_SEPARATOR values) text fields)
  = values.
Proof.
apply split_join.
Qed.

Lemma ListPhrase_new_join_witness :
  ListPhrase.phraseList
    (ListPhrase.new (Js.join FILTER_VALUE_SEPARATOR ["hg19"; ""; "hg38"]) "genome:x" ["g"])
  = ["hg19"; ""; "hg38"].
Proof.
apply (ListPhrase_new_join ["hg19"; ""; "hg38"] "genome:x" ["g"]).
- discriminate.
- repeat constructor.
Defined.

(** ** More on containment and equality of clauses *)

(** X10. For a clause of either kind, [contains] of a predicate answers
    whether one of the phrases that [getPhrases] returns satisfies the
    predicate, and [contains] of [null] or [undefined] answers whether none
    of them is an object; neither call fails. *)
Theorem contains_getPhrases (c : ISearchClause) (predicate : JsRef Phrase -> bool) :
  ISearchClause_contains c (MatchFn predicate)
  = Normal (existsb predicate (getPhrases c))
  /\ ISearchClause_contains c (MatchRef JsNull)
     = Normal (forallb (fun r => negb (truthy_ref r)) (getPhrases c))
  /\ ISearchClause_contains c (MatchRef JsUndefined)
     = Normal (forallb (fun r => negb (truthy_ref r)) (getPhrases c)).
Proof.
destruct c as [phrase|phrases]; simpl.
- rewrite orb_false_r, andb_true_r. by repeat split.
- rewrite for_return_true_existsb.
  assert (existsb (fun phrase => predicate (JsObj phrase)) phrases
          = existsb predicate (map JsObj phrases)) as ->.
  { induction phrases as [|p ps IH]; simpl; [done|]. by rewrite IH. }
  by destruct phrases.
Qed.

(** X11. An and-clause over two lists of phrases put together contains a
    phrase, or a phrase that satisfies a predicate, exactly when the
    and-clause over one of the two lists does; it is empty, for
    [contains(null)], exactly when both are. *)
Theorem AndSearchClause_contains_app (a b : list Phrase) :
  (forall predicate,
     AndSearchClause_contains (a ++ b) (MatchFn predicate)
     = AndSearchClause_contains a (MatchFn predicate)
       || AndSearchClause_contains b (MatchFn predicate))
  /\ (forall q,
        AndSearchClause_contains (a ++ b) (MatchRef (JsObj q))
        = AndSearchClause_contains a (MatchRef (JsObj q))
          || AndSearchClause_contains b (MatchRef (JsObj q)))
  /\ AndSearchClause_contains (a ++ b) (MatchRef JsNull)
     = AndSearchClause_contains a (MatchRef JsNull)
       && AndSearchClause_contains b (MatchRef JsNull).
Proof.
split; [|split].
- intros predicate. simpl. rewrite !for_return_true_existsb. apply existsb_app.
- intros q. simpl. rewrite !for_return_true_existsb. apply existsb_app.
- simpl. destruct a, b; reflexivity.
Qed.

(** X12. The and-clause without phrases equals the and-clauses without
    phrases and no other and-clause, in both directions. *)
Theorem AndSearchClause_equals_empty (phrases : list Phrase) :
  (AndSearchClause_equals [] (AndSearchClause phrases) = Normal true <-> phrases = [])
  /\ (AndSearchClause_equals phrases (AndSearchClause []) = Normal true <-> phrases = []).
Proof.
rewrite !AndSearchClause_equals_forallb.
split; (destruct phrases as [|p ps]; simpl; split; [done|done|discriminate|discriminate]).
Qed.

(** X13. The equality of clauses fails with a [TypeError] in one case
    only: a not-clause that holds a phrase compared with a not-clause that
    holds none. Every other comparison returns a boolean. *)
Theorem ISearchClause_equals_throws (c other : ISearchClause) :
  ISearchClause_equals c other = ThrowTypeError <->
  exists p, c = NotSearchClause (JsObj p)
    /\ (other = NotSearchClause JsNull \/ other = NotSearchClause JsUndefined).
Proof.
destruct c as [n|a]; simpl.
- destruct other as [m|b]; unfold NotSearchClause_equals; simpl.
  + destruct n as [| |p], m as [| |q]; simpl;
      (split;
       [ first [discriminate | intros _; eexists; split; [reflexivity | auto]]
       | intros (p' & Hc & [Ho|Ho]); first [reflexivity | congruence] ]).
  + split; [discriminate|]. by intros (p & _ & [|]).
- destruct other as [m|b].
  + split; [discriminate|]. by intros (p & ? & _).
  + rewrite AndSearchClause_equals_forallb.
    split; [discriminate|]. by intros (p & ? & _).
Qed.

Lemma contained_trans (a b c : list Phrase) :
  (forall p, In p a -> AndSearchClause_contains b (MatchRef (JsObj p)) = true) ->
  (forall q, In q b -> AndSearchClause_contains c (MatchRef (JsObj q)) = true) ->
  forall p, In p a -> AndSearchClause_contains c (MatchRef (JsObj p)) = true.
Proof.
intros Hab Hbc p Hp. specialize (Hab p Hp).
rewrite AndSearchClause_contains_phrase, existsb_exists in Hab.
destruct Hab as (q & Hq & Hqp). specialize (Hbc q Hq).
rewrite AndSearchClause_contains_phrase, existsb_exists in Hbc.
destruct Hbc as (r & Hr & Hrq).
rewrite AndSearchClause_contains_phrase, existsb_exists.
exists r. split; [done|]. by apply (Phrase_equals_trans r q p).
Qed.

Lemma AndSearchClause_equals_true a b :
  AndSearchClause_equals a (AndSearchClause b) = Normal true <->
  (forall p, In p a -> AndSearchClause_contains b (MatchRef (JsObj p)) = true)
  /\ (forall q, In q b -> AndSearchClause_contains a (MatchRef (JsObj q)) = true).
Proof.
rewrite AndSearchClause_equals_forallb. split.
- intros [= H]. apply andb_true_iff in H as [Ha Hb].
  rewrite forallb_forall in Ha, Hb. by split.
- intros [Ha Hb]. f_equal. apply andb_true_iff. by rewrite !forallb_forall.
Qed.

(** X14. The equality of clauses is transitive: when [c] equals [d] and
    [d] equals [e], then [c] equals [e]. *)
Theorem ISearchClause_equals_transitive (c d e : ISearchClause) :
  ISearchClause_equals c d = Normal true ->
  ISearchClause_equals d e = Normal true ->
  ISearchClause_equals c e = Normal true.
Proof.
destruct c as [n|a], d as [m|b]; try discriminate.
- destruct e as [k|e]; [|discriminate].
  destruct n as [| |p], m as [| |q], k as [| |r]; try discriminate; try done.
  unfold ISearchClause_equals, NotSearchClause_equals. simpl.
  intros [= Hqp] [= Hrq]. f_equal. by apply (Phrase_equals_trans r q p).
- destruct e as [k|e]; [discriminate|].
  cbn [ISearchClause_equals]. rewrite !AndSearchClause_equals_true.
  intros [Hab Hba] [Hbe Heb]. split.
  + by apply (contained_trans a b e).
  + by apply (contained_trans e b a).
Qed.

Lemma ISearchClause_equals_transitive_witness :
  let x := Default (DefaultPhrase.new "a,b" "a,b" ["tag"]) in
  let y := List (ListPhrase.new "a,b" "tag:a,b" ["tag"]) in
  ISearchClause_equals (AndSearchClause [x; y]) (AndSearchClause [y; x; y; x])
  = Normal true.
Proof.
intros x y.
apply (ISearchClause_equals_transitive
         (AndSearchClause [x; y]) (AndSearchClause [y; x]) (AndSearchClause [y; x; y; x]));
  reflexivity.
Defined.

Lemma concat_app sep (a b : list string) :
  a <> [] -> b <> [] ->
  String.concat sep (a ++ b) = String.concat sep a +:+ sep +:+ String.concat sep b.
Proof.
intros Ha Hb. induction a as [|x a IH]; [done|].
destruct a as [|y a].
- destruct b as [|z b]; [done|]. reflexivity.
- change ((x :: y :: a) ++ b) with (x :: y :: (a ++ b)).
  rewrite !concat_cons_cons.
  change (y :: a ++ b) with ((y :: a) ++ b). rewrite IH by done.
  by rewrite !append_assoc.
Qed.

(** X15. The text of an and-clause over two non-empty lists of phrases put
    together is the text of the and-clause over the first, a space, and
    the text of the and-clause over the second; with an empty list on one
    side it is the text of the other. *)
Theorem AndSearchClause_toString_app (a b : list Phrase) :
  (a <> [] -> b <> [] ->
   AndSearchClause_toString (a ++ b)
   = AndSearchClause_toString a +:+ " " +:+ AndSearchClause_toString b)
  /\ AndSearchClause_toString ([] ++ b) = AndSearchClause_toString b
  /\ AndSearchClause_toString (a ++ []) = AndSearchClause_toString a.
Proof.
split; [|split; [done | by rewrite app_nil_r]].
intros Ha Hb. unfold AndSearchClause_toString, Js.join.
destruct a as [|x a]; [done|]. destruct b as [|y b]; [done|].
simpl Nat.ltb. cbv iota. rewrite map_app. by apply concat_app.
Qed.

Lemma AndSearchClause_toString_app_witness :
  let x := Default (DefaultPhrase.new "lung" "type:lung" ["type"]) in
  let y := List (ListPhrase.new "a,b" "tag:a,b" ["tag"]) in
  AndSearchClause_toString ([x; y] ++ [y]) = "type:lung tag:a,b tag:a,b".
Proof.
intros x y.
destruct (AndSearchClause_toString_app [x; y] [y]) as (Happ & _).
rewrite Happ; [reflexivity | discriminate | discriminate].
Defined.

(** ** More on the mutation-assessor formatter *)

Lemma MA_SCORE_MAP_entry key entry :
  MA_SCORE_MAP !! key = Some entry ->
  In (key, entry)
    [ ("h", {| label := "High"; className := "oma-high"; priority := 4 |});
      ("m", {| label := "Medium"; className := "oma-medium"; priority := 3 |});
      ("l", {| label := "Low"; className := "oma-low"; priority := 2 |});
      ("n", {| label := "Neutral"; className := "oma-neutral"; priority := 1 |});
      ("na", {| label := "NA"; className := "oma-na"; priority := 0 |}) ].
Proof.
intros H. apply elem_of_list_to_map_2 in H. by apply list_elem_of_In.
Qed.

Lemma MA_SCORE_MAP_shape key entry :
  MA_SCORE_MAP !! key = Some entry ->
  label entry <> "" /\ className entry <> ""
  /\ (0 <= priority entry <= 4)%Z
  /\ (label entry = "NA" <-> key = "na").
Proof.
intros H%MA_SCORE_MAP_entry. simpl in H.
destruct H as [[= <- <-]|[[= <- <-]|[[= <- <-]|[[= <- <-]|[[= <- <-]|[]]]]]];
  simpl; repeat split; try discriminate; try lia; done.
Qed.

(** No inherited name is a key of the score map. *)
Lemma Object_prototype_keys_not_own key :
  In key Object_prototype_keys -> MA_SCORE_MAP !! key = None.
Proof.
intros H. simpl in H.
repeat (destruct H as [<-|H]; [by vm_compute|]). done.
Qed.

Lemma MA_SCORE_MAP_read_cases key :
  match MA_SCORE_MAP_read key with
  | OwnEntry entry => MA_SCORE_MAP !! key = Some entry
  | Inherited => In key Object_prototype_keys
  | Missing => MA_SCORE_MAP !! key = None /\ ~ In key Object_prototype_keys
  end.
Proof.
unfold MA_SCORE_MAP_read. destruct (MA_SCORE_MAP !! key) as [entry|]; [done|].
case_bool_decide as Hk; rewrite list_elem_of_In in Hk; [done | by split].
Qed.

Lemma MA_SCORE_MAP_read_inherited key :
  MA_SCORE_MAP_read key = Inherited <-> In key Object_prototype_keys.
Proof.
pose proof (MA_SCORE_MAP_read_cases key) as H. split.
- intros Hr. by rewrite Hr in H.
- intros Hk. unfold MA_SCORE_MAP_read.
  rewrite (Object_prototype_keys_not_own key Hk).
  rewrite bool_decide_eq_true_2; [done|]. by apply list_elem_of_In.
Qed.

Lemma getMapEntry_inherited {Number : Type} (data : IColumnFormatterData Number) :
  getMapEntry data = Inherited <->
  exists s, impact (getData data) = Some s
    /\ s <> "" /\ In (Js.toLowerCase s) Object_prototype_keys.
Proof.
unfold getMapEntry, truthy_impact.
destruct (impact (getData data)) as [[|c s]|]; cbn [truthy_string].
- split; [done|]. by intros (s & [= <-] & ? & _).
- rewrite MA_SCORE_MAP_read_inherited. split.
  + intros Hk. by exists (String c s).
  + by intros (s' & [= <-] & _ & Hk).
- split; [done|]. by intros (s & [= ] & _).
Qed.

Lemma getMapEntry_own {Number : Type} (data : IColumnFormatterData Number) entry :
  getMapEntry data = OwnEntry entry ->
  exists s, impact (getData data) = Some s
    /\ s <> "" /\ MA_SCORE_MAP !! Js.toLowerCase s = Some entry.
Proof.
unfold getMapEntry, truthy_impact.
destruct (impact (getData data)) as [[|c s]|]; cbn [truthy_string]; try done.
intros Hr. exists (String c s). split; [done|]. split; [done|].
pose proof (MA_SCORE_MAP_read_cases (Js.toLowerCase (String c s))) as H.
by rewrite Hr in H.
Qed.

(** X16. How the readings of the score map agree, for every cell: the
    link class is [oma-link] exactly when the class of the score is not the
    empty string, exactly when the sort priority is not -1; a sort priority
    that is a number lies between -1 and 4; the class of the score and the
    sort priority are [undefined] together, exactly when the impact, in
    lower case, names a property inherited from [Object.prototype], and the
    link class is then still [oma-link]. *)
Theorem formatter_readings_agree {Number : Type} (data : IColumnFormatterData Number) :
  (getMaClassName data = "oma-link" <-> getScoreClassName data <> Some "")
  /\ (getScoreClassName data <> Some "" <-> sortPriority data <> Some (-1)%Z)
  /\ (forall p, sortPriority data = Some p -> (-1 <= p <= 4)%Z)
  /\ (getScoreClassName data = None <-> sortPriority data = None)
  /\ (sortPriority data = None <->
      exists s, impact (getData data) = Some s
        /\ s <> "" /\ In (Js.toLowerCase s) Object_prototype_keys)
  /\ (sortPriority data = None -> getMaClassName data = "oma-link").
Proof.
rewrite <- getMapEntry_inherited.
unfold getMaClassName, getScoreClassName, sortPriority.
destruct (getMapEntry data) as [entry| |] eqn:He.
- apply getMapEntry_own in He as (s & _ & _ & He).
  destruct (MA_SCORE_MAP_shape _ _ He) as (_ & Hc & Hp & _).
  split; [split; [intros _; congruence | done]|].
  split; [split; [intros _ [= H]; lia | intros _; congruence]|].
  split; [intros p [= <-]; lia|].
  split; [split; discriminate|].
  split; [split; discriminate|]. discriminate.
- split; [split; [discriminate | done]|].
  split; [split; discriminate|].
  split; [discriminate|].
  split; [done|]. split; done.
- split; [split; [discriminate | congruence]|].
  split; [split; congruence|].
  split; [intros p [= <-]; lia|].
  split; [split; discriminate|].
  split; [split; discriminate|]. discriminate.
Qed.

Lemma formatter_readings_agree_witness :
  let cell : IColumnFormatterData Z :=
    {| name := "mutationAssessor";
       columnData := Some {| impact := Some "Constructor"; score := None;
                             pdb := None; msa := None; xVar := None |};
       rowData := None |} in
  getMaClassName cell = "oma-link".
Proof.
intros cell.
destruct (formatter_readings_agree cell) as (_ & _ & _ & _ & _ & Hlink).
apply Hlink. reflexivity.
Defined.

(** X17. The entry of the score map, and with it the classes and the sort
    priority, depend on the impact only up to case: two cells whose impacts
    have the same lower-case form get the same ones. *)
Theorem formatter_case_insensitive {Number : Type}
    (data data' : IColumnFormatterData Number) (s s' : string) :
  impact (getData data) = Some s ->
  impact (getData data') = Some s' ->
  Js.toLowerCase s = Js.toLowerCase s' ->
  getMapEntry data = getMapEntry data'
  /\ getScoreClassName data = getScoreClassName data'
  /\ getMaClassName data = getMaClassName data'
  /\ sortPriority data = sortPriority data'.
Proof.
intros Hs Hs' Hlow.
assert (He : getMapEntry data = getMapEntry data').
{ unfold getMapEntry, truthy_impact. rewrite Hs, Hs'.
  destruct s, s'; simpl in *; try done. by rewrite Hlow. }
unfold getScoreClassName, getMaClassName, sortPriority. by rewrite He.
Qed.

Lemma formatter_case_insensitive_witness :
  let cell (code : string) : IColumnFormatterData Z :=
    {| name := "mutationAssessor";
       columnData := Some {| impact := Some code; score := None; pdb := None;
                             msa := None; xVar := None |};
       rowData := None |} in
  getMapEntry (cell "Na") = getMapEntry (cell "nA")
  /\ getScoreClassName (cell "Na") = getScoreClassName (cell "nA")
  /\ getMaClassName (cell "Na") = getMaClassName (cell "nA")
  /\ sortPriority (cell "Na") = sortPriority (cell "nA").
Proof.
intros cell.
apply (formatter_case_insensitive (cell "Na") (cell "nA") "Na" "nA"); reflexivity.
Defined.

Lemma getDisplayValue_cases {Number : Type} (data : IColumnFormatterData Number) :
  match impact (getData data) with
  | Some (String c s) =>
      match getMapEntry data with
      | Inherited => getDisplayValue data = None
      | _ =>
          exists text, getDisplayValue data = Some text
            /\ text <> ""
            /\ (text = "NA" <-> Js.toLowerCase (String c s) = "na")
      end
  | _ => getDisplayValue data = Some ""
  end.
Proof.
unfold getDisplayValue, getTextValue, getMapEntry, truthy_impact.
destruct (impact (getData data)) as [[|c s]|]; [done| |done].
cbn [truthy_string].
pose proof (MA_SCORE_MAP_read_cases (Js.toLowerCase (String c s))) as H.
destruct (MA_SCORE_MAP_read (Js.toLowerCase (String c s))) as [entry| |]; [| done |].
- destruct (MA_SCORE_MAP_shape _ _ H) as (Hl & _ & _ & Hna). eauto.
- destruct H as [Hnone _]. eexists. split; [reflexivity|]. split; [done|]. split.
  + intros Heq. rewrite Heq in Hnone. by vm_compute in Hnone.
  + intros Hlow. rewrite Hlow in Hnone. by vm_compute in Hnone.
Qed.

(** X18. The display value of a cell is empty exactly when the cell has no
    impact or an empty one, as for a row without mutations. *)
Theorem getDisplayValue_empty {Number : Type} (data : IColumnFormatterData Number) :
  (getDisplayValue data = Some "" <->
   impact (getData data) = None \/ impact (getData data) = Some "")
  /\ getDisplayValue
       ({| name := name data; columnData := None; rowData := Some [] |}
        : IColumnFormatterData Number) = Some ""
  /\ getDisplayValue
       ({| name := name data; columnData := None; rowData := None |}
        : IColumnFormatterData Number) = Some "".
Proof.
split; [|by split].
pose proof (getDisplayValue_cases data) as H.
destruct (impact (getData data)) as [[|c s]|]; [tauto| |tauto].
split; [|by intros [|]]. intros Hd.
destruct (getMapEntry data); [|congruence|];
  destruct H as (text & Ht & Hne & _); congruence.
Qed.

(** X19. The guard of the tooltip fails with a [TypeError] exactly when
    the impact, in lower case, names a property inherited from
    [Object.prototype]: the display value is then [undefined] and has no
    [length]. In every other case a cell gets a tooltip exactly when its
    impact is a non-empty string other than [NA] in any case. *)
Theorem renderFunction_tooltip {Number : Type} (data : IColumnFormatterData Number) :
  (renderFunction_hasTooltip data = ThrowTypeError <->
   exists s, impact (getData data) = Some s
     /\ s <> "" /\ In (Js.toLowerCase s) Object_prototype_keys)
  /\ (forall shown,
        renderFunction_hasTooltip data = Normal shown ->
        (shown = true <->
         exists s, impact (getData data) = Some s
           /\ s <> "" /\ Js.toLowerCase s <> "na")).
Proof.
unfold renderFunction_hasTooltip.
change (MA_SCORE_MAP_read "na")
  with (OwnEntry {| label := "NA"; className := "oma-na"; priority := 0 |}).
cbn [mbind Completion_bind mret Completion_ret label]. split.
- rewrite <- getMapEntry_inherited. unfold getDisplayValue.
  destruct (getMapEntry data); split; done.
- intros shown. pose proof (getDisplayValue_cases data) as H.
  destruct (impact (getData data)) as [[|c s]|].
  + rewrite H. intros [= <-]. simpl. split; [done|].
    by intros (s & [= <-] & ? & _).
  + assert (Hcase : getDisplayValue data = None
             \/ exists text, getDisplayValue data = Some text
                  /\ text <> ""
                  /\ (text = "NA" <-> Js.toLowerCase (String c s) = "na"))
      by (destruct (getMapEntry data); auto).
    destruct Hcase as [->|(text & -> & Hne & Hna)]; [discriminate|].
    intros [= <-]. rewrite andb_true_iff, negb_true_iff, bool_decide_eq_false.
    split.
    * intros [_ Hneq]. exists (String c s). split; [done|]. split; [done|].
      intros Hlow%Hna. congruence.
    * intros (s' & [= <-] & _ & Hlow). split.
      -- destruct text; [done | reflexivity].
      -- intros [= Heq]. by apply Hlow, Hna.
  + rewrite H. intros [= <-]. simpl. split; [done|].
    by intros (s & [= ] & _).
Qed.

Lemma renderFunction_tooltip_witness :
  let cell : IColumnFormatterData Z :=
    {| name := "mutationAssessor";
       columnData := Some {| impact := Some "Constructor"; score := None;
                             pdb := None; msa := None; xVar := None |};
       rowData := None |} in
  renderFunction_hasTooltip cell = ThrowTypeError.
Proof.
intros cell. apply (renderFunction_tooltip cell).
exists "Constructor". split; [reflexivity|]. split; [discriminate|].
simpl. tauto.
Defined.

(** ** The legacy links *)

Section ReplaceFacts.

Implicit Types s pre post pattern replacement : string.

Lemma indexOf_zero s needle :
  Js.indexOf s needle = 0%Z <-> String.prefix needle s = true.
Proof.
pose proof (indexOf_lower_bound s needle) as Hlb.
destruct s as [|c s]; [rewrite indexOf_nil | rewrite indexOf_cons].
- destruct (String.prefix needle ""); split; congruence.
- destruct (String.prefix needle (String c s)); [done|].
  pose proof (indexOf_lower_bound s needle).
  destruct (Z.eqb_spec (Js.indexOf s needle) (-1)); split; try congruence; lia.
Qed.

Lemma indexOf_absent s needle :
  Js.indexOf s needle = (-1)%Z <->
  ~ exists pre post, s = pre +:+ needle +:+ post.
Proof.
pose proof (indexOf_lower_bound s needle). rewrite <- indexOf_found. lia.
Qed.

Lemma skip_app pattern post :
  Js.skip (String.length pattern) (pattern +:+ post) = post.
Proof.
induction pattern as [|c pattern IH]; [done|]. by rewrite append_cons.
Qed.

Lemma replace_nil pattern replacement :
  Js.replace "" pattern replacement =
    if String.prefix pattern "" then replacement +:+ Js.skip (String.length pattern) ""
    else "".
Proof. reflexivity. Qed.

Lemma replace_cons c s pattern replacement :
  Js.replace (String c s) pattern replacement =
    if String.prefix pattern (String c s)
    then replacement +:+ Js.skip (String.length pattern) (String c s)
    else String c (Js.replace s pattern replacement).
Proof. reflexivity. Qed.

Lemma replace_prefix s pattern replacement :
  String.prefix pattern s = true ->
  Js.replace s pattern replacement
  = replacement +:+ Js.skip (String.length pattern) s.
Proof.
intros Hp. destruct s; [rewrite replace_nil | rewrite replace_cons]; by rewrite Hp.
Qed.

(** Without an occurrence of the pattern the string is left as it is. *)
Lemma replace_absent s pattern replacement :
  Js.indexOf s pattern = (-1)%Z -> Js.replace s pattern replacement = s.
Proof.
induction s as [|c s IH].
- rewrite indexOf_nil, replace_nil. by destruct (String.prefix pattern "").
- rewrite indexOf_cons, replace_cons.
  destruct (String.prefix pattern (String c s)); [done|].
  pose proof (indexOf_lower_bound s pattern).
  destruct (Z.eqb_spec (Js.indexOf s pattern) (-1)) as [Heq|]; [|lia].
  intros _. by rewrite (IH Heq).
Qed.

(** The first occurrence of the pattern, and only that one, is replaced. *)
Lemma replace_first pre post pattern replacement :
  Js.indexOf (pre +:+ pattern +:+ post) pattern = Z.of_nat (String.length pre) ->
  Js.replace (pre +:+ pattern +:+ post) pattern replacement
  = pre +:+ replacement +:+ post.
Proof.
induction pre as [|c pre IH].
- intros _. change ("" +:+ pattern +:+ post) with (pattern +:+ post).
  rewrite replace_prefix by (apply prefix_app; eauto). by rewrite skip_app.
- rewrite !append_cons, indexOf_cons, replace_cons.
  destruct (String.prefix pattern (String c (pre +:+ pattern +:+ post))).
  + simpl String.length. lia.
  + pose proof (indexOf_lower_bound (pre +:+ pattern +:+ post) pattern).
    destruct (Z.eqb_spec (Js.indexOf (pre +:+ pattern +:+ post) pattern) (-1));
      simpl String.length; [lia|].
    intros Hi. rewrite IH by lia. done.
Qed.

End ReplaceFacts.

(** The address that [maLink] builds from a link it accepts. *)
Lemma maLink_accepted (l : string) :
  maLink (Some l) <> None ->
  maLink (Some l)
  = Some (let url := Js.replace l "getma.org" "mutationassessor.org/r2" in
          if String.prefix "http://" url then url else "http://" +:+ url).
Proof.
unfold maLink.
destruct (truthy_string l && (0 <? String.length l)%nat
          && negb (String.eqb (Js.toLowerCase l) "na")
          && (Js.indexOf (Js.toLowerCase l) "not available" =? -1)%Z); [|done].
intros _. cbv zeta.
destruct (Z.eqb_spec (Js.indexOf (Js.replace l "getma.org" "mutationassessor.org/r2")
                        "http://") 0) as [H0|H0]; simpl.
- apply indexOf_zero in H0. by rewrite H0.
- destruct (String.prefix "http://" (Js.replace l "getma.org" "mutationassessor.org/r2"))
    eqn:Hp; [|done].
  apply indexOf_zero in Hp. done.
Qed.

(** X20. [maLink] answers [null] exactly for a missing link, the empty
    link, the link [NA] in any case, and a link that holds [not available]
    in any case. *)
Theorem maLink_null_iff (link : option string) :
  maLink link = None <->
  link = None
  \/ exists l, link = Some l
       /\ (l = ""
           \/ Js.toLowerCase l = "na"
           \/ exists pre post, Js.toLowerCase l = pre +:+ "not available" +:+ post).
Proof.
destruct link as [l|]; [|by split; [left|]].
unfold maLink.
destruct (truthy_string l) eqn:Ht.
2:{ destruct l; [|done]. simpl. split; [|done]. intros _. right. exists "". eauto. }
assert (Hlen : (0 <? String.length l)%nat = true) by (by destruct l).
rewrite Hlen. simpl andb.
destruct (String.eqb_spec (Js.toLowerCase l) "na") as [Hna|Hna]; simpl.
{ split; [|done]. intros _. right. exists l. eauto. }
destruct (Z.eqb_spec (Js.indexOf (Js.toLowerCase l) "not available") (-1)) as [Ha|Ha].
- split.
  + destruct (negb _); discriminate.
  + intros [|(l' & [= <-] & [->|[?|Hocc]])]; try done.
    by apply indexOf_absent in Ha.
- split; [|done]. intros _. right. exists l. split; [done|]. right. right.
  apply indexOf_found. pose proof (indexOf_lower_bound (Js.toLowerCase l) "not available").
  lia.
Qed.

(** X21. An address returned by [maLink] always starts with [http://]. *)
Theorem maLink_http (link : option string) (url : string) :
  maLink link = Some url ->
  exists rest, url = "http://" +:+ rest.
Proof.
destruct link as [l|]; [|done]. intros Hurl.
rewrite maLink_accepted in Hurl by congruence. cbv zeta in Hurl.
destruct (String.prefix "http://" (Js.replace l "getma.org" "mutationassessor.org/r2"))
  eqn:Hp; injection Hurl as <-.
- by apply prefix_app.
- eauto.
Qed.

Lemma maLink_http_witness :
  exists rest, "http://https://mutationassessor.org/r3/?x=1" = "http://" +:+ rest.
Proof.
apply (maLink_http (Some "https://mutationassessor.org/r3/?x=1")). reflexivity.
Defined.

(** X22. For a link that [maLink] accepts: without the legacy host
    [getma.org] a link that starts with [http://] is returned as it is, and
    any other gets [http://] in front; with the legacy host, its first
    occurrence is replaced by [mutationassessor.org/r2], the rest of the
    link is kept, and [http://] is put in front unless already there. *)
Theorem maLink_rewrite (l pre post : string) :
  maLink (Some l) <> None ->
  (Js.indexOf l "getma.org" = (-1)%Z ->
   maLink (Some l) = Some (if String.prefix "http://" l then l else "http://" +:+ l))
  /\ (l = pre +:+ "getma.org" +:+ post ->
      Js.indexOf l "getma.org" = Z.of_nat (String.length pre) ->
      maLink (Some l)
      = Some (let url := pre +:+ "mutationassessor.org/r2" +:+ post in
              if String.prefix "http://" url then url else "http://" +:+ url)).
Proof.
intros Hvalid. rewrite (maLink_accepted l Hvalid). cbv zeta. split.
- intros Habsent. by rewrite (replace_absent _ _ _ Habsent).
- intros -> Hfirst. by rewrite (replace_first _ _ _ _ Hfirst).
Qed.

Lemma maLink_rewrite_witness :
  maLink (Some "http://mutationassessor.org/r3/?cm=var")
  = Some "http://mutationassessor.org/r3/?cm=var"
  /\ maLink (Some "getma.org/?cm=var&fts=all")
     = Some "http://mutationassessor.org/r2/?cm=var&fts=all".
Proof.
split.
- destruct (maLink_rewrite "http://mutationassessor.org/r3/?cm=var" "" "") as (Hmodern & _);
    [discriminate|].
  apply Hmodern. reflexivity.
- destruct (maLink_rewrite "getma.org/?cm=var&fts=all" "" "/?cm=var&fts=all")
    as (_ & Hlegacy); [discriminate|].
  apply Hlegacy; reflexivity.
Defined.

(** ** Matching and the attributes of the study *)

Lemma existsb_pointwise_in {A} (f g : A -> bool) (l : list A) :
  (forall x, In x l -> f x = g x) -> existsb f l = existsb g l.
Proof.
intros Hfg. induction l as [|x l IH]; simpl; [done|].
rewrite Hfg by (by left). rewrite IH; [done|]. intros y Hy. apply Hfg. by right.
Qed.

Lemma field_matches_agree phrase (study study' : gmap string string) fieldName :
  study !! fieldName = study' !! fieldName ->
  field_matches phrase study fieldName = field_matches phrase study' fieldName.
Proof. unfold field_matches. by intros ->. Qed.

Lemma list_field_flag_agree l (study study' : gmap string string) fieldName :
  study !! fieldName = study' !! fieldName ->
  list_field_flag l study fieldName = list_field_flag l study' fieldName.
Proof. unfold list_field_flag. by intros ->. Qed.

(** X23. A phrase of either kind reads a study only at its own fields: two
    studies with the same values at the fields of the phrase get the same
    answer, so setting any other attribute of a study does not change the
    match. *)
Theorem Phrase_match_reads_fields
    (p : Phrase) (study study' : gmap string string) (other value : string) :
  let fields := match p with
                | Default d => DefaultPhrase.fields d
                | List l => ListPhrase.fields l
                end in
  ((forall f, In f fields -> study !! f = study' !! f) ->
   Phrase_match p study = Phrase_match p study')
  /\ (~ In other fields ->
      Phrase_match p (<[other := value]> study) = Phrase_match p study).
Proof.
intros fields.
assert (Hagree : forall s s' : gmap string string,
  (forall f, In f fields -> s !! f = s' !! f) -> Phrase_match p s = Phrase_match p s').
{ intros s s' H. subst fields. destruct p as [d|l]; simpl.
  - rewrite !DefaultPhrase_match_existsb. apply existsb_pointwise_in.
    intros f Hf. by apply field_matches_agree, H.
  - rewrite !ListPhrase_match_existsb. apply existsb_pointwise_in.
    intros f Hf. by apply list_field_flag_agree, H. }
split; [apply Hagree|].
intros Hother. apply Hagree. intros f Hf.
apply lookup_insert_ne. by intros ->.
Qed.

Lemma Phrase_match_reads_fields_witness :
  let p := Default (DefaultPhrase.new "lung" "name:lung" ["name"]) in
  let study : gmap string string := {[ "name" := "Lung study" ]} in
  Phrase_match p (<["description" := "breast"]> study) = Phrase_match p study.
Proof.
intros p study.
apply (Phrase_match_reads_fields p study study "description" "breast").
simpl. intros [|[]]. discriminate.
Defined.

(** ** Clauses equal to themselves *)

(** X24. A clause whose phrases each equal themselves (every list phrase,
    every single-value phrase with a non-empty phrase string) equals
    itself; so does a not-clause without a phrase. *)
Theorem ISearchClause_equals_reflexive (c : ISearchClause) :
  (forall p, In (JsObj p) (getPhrases c) -> Phrase_equals p (JsObj p) = true) ->
  ISearchClause_equals c c = Normal true.
Proof.
destruct c as [n|a]; simpl.
- intros Hself. destruct n as [| |p]; try done.
  unfold NotSearchClause_equals. simpl. f_equal. apply Hself. by left.
- intros Hself. apply AndSearchClause_equals_true.
  assert (H : forall p, In p a -> AndSearchClause_contains a (MatchRef (JsObj p)) = true).
  { intros p Hp. rewrite AndSearchClause_contains_phrase, existsb_exists.
    exists p. split; [done|]. apply Hself. by apply in_map. }
  by split.
Qed.

Lemma ISearchClause_equals_reflexive_witness :
  let x := Default (DefaultPhrase.new "lung" "type:lung" ["type"]) in
  let y := List (ListPhrase.new "" "tag:" ["tag"]) in
  ISearchClause_equals (AndSearchClause [x; y]) (AndSearchClause [x; y]) = Normal true
  /\ ISearchClause_equals (NotSearchClause (JsObj y)) (NotSearchClause (JsObj y))
     = Normal true.
Proof.
intros x y. split.
- apply (ISearchClause_equals_reflexive (AndSearchClause [x; y])).
  intros p [[= <-]|[[= <-]|[]]]; reflexivity.
- apply (ISearchClause_equals_reflexive (NotSearchClause (JsObj y))).
  intros p [[= <-]|[]]. reflexivity.
Defined.
